(** * Split Page: the notepad engine and its utilities

    A shallow embedding of [src/js/utilities.js], of its later revision
    (the second utilities module of the repository) and of the notes, the
    notes index and the stored notepads of [src/js/notepad.js], followed by
    the properties the design specification states about them (Part II)
    and by properties read off the code (Part III).

    Conventions of the embedding.
    - A JavaScript number that holds an integer is a [Z]; the two
      read-time estimators, which divide, use binary64 floats.
    - A string that is only stored, compared and concatenated is a Rocq
      [string] (its UTF-8 bytes).  [countWords] runs a regular expression
      with the [u] flag, that is over code points, and takes its input as
      a list of code points.
    - A method that mutates the notepad is a function in the state and
      exception monad [M]: a thrown exception keeps the state reached
      when it was thrown, as in JavaScript.
    - [Date.now()] reads an oracle [clock] at the state's [tick], and
      advances the tick. *)

From Stdlib Require Import ZArith Floats.
From stdpp Require Import base option list strings pretty gmap.

Set Warnings "-clear-no-such-hyp".

Local Open Scope Z_scope.

(* ================================================================== *)
(** * Part I. Definitions *)
(* ================================================================== *)

(** ** Exceptions, outcomes and the state monad *)

Inductive exn : Type :=
| TypeError (msg : string)
| NotFoundError (msg : string)
| QuotaExceededError.

(** [String(error)], as used when an error is appended to a message. *)
Definition exn_toString (e : exn) : string :=
  match e with
  | TypeError msg => "TypeError: " +:+ msg
  | NotFoundError msg => "NotFoundError: " +:+ msg
  | QuotaExceededError => "QuotaExceededError"
  end.

Inductive outcome (A : Type) : Type :=
| Done (a : A)
| Throws (e : exn).
Arguments Done {A} a.
Arguments Throws {A} e.

Definition M (S A : Type) : Type := S → outcome A * S.

Section Monad.
Context {S : Type}.

Definition ret {A} (a : A) : M S A := λ s, (Done a, s).

Definition bind {A B} (m : M S A) (k : A → M S B) : M S B :=
  λ s, match m s with
       | (Done a, s') => k a s'
       | (Throws e, s') => (Throws e, s')
       end.

Definition throw {A} (e : exn) : M S A := λ s, (Throws e, s).

(** [try { body } catch (error) { handler(error) }] *)
Definition try_catch {A} (body : M S A) (handler : exn → M S A) : M S A :=
  λ s, match body s with
       | (Done a, s') => (Done a, s')
       | (Throws e, s') => handler e s'
       end.

Definition gets {A} (f : S → A) : M S A := λ s, (Done (f s), s).
Definition modify (f : S → S) : M S unit := λ s, (Done tt, f s).

(** [for (const x of l) { body(x) }] over a list fixed when the loop starts. *)
Fixpoint for_each {A} (l : list A) (body : A → M S unit) : M S unit :=
  match l with
  | [] => ret tt
  | x :: l' => bind (body x) (λ _, for_each l' body)
  end.

Definition state_after {A} (m : M S A) (s : S) : S := snd (m s).
Definition result_of {A} (m : M S A) (s : S) : outcome A := fst (m s).
End Monad.

Notation "'let!' x ':=' m 'in' k" := (bind m (λ x, k))
  (at level 10, x pattern, m at level 100, k at level 200, only parsing).
Notation "'do!' m 'in' k" := (bind m (λ _, k))
  (at level 10, m at level 100, k at level 200, only parsing).

(** ** JavaScript values that the code tests for truth *)

(** A value that is a string or [undefined]. *)
Definition jsval : Type := option string.

(** [if (v)]: [undefined] and the empty string are falsy. *)
Definition truthy (v : jsval) : bool :=
  match v with
  | Some s => negb (String.eqb s "")
  | None => false
  end.

(** The line feed of a JavaScript string literal. *)
Definition newline : string := String (Ascii.ascii_of_nat 10) "".

(** The string a value is converted to where an id is expected. *)
Definition to_id (v : jsval) : string := default "undefined" v.

(* ================================================================== *)
(** ** utilities.js *)
(* ================================================================== *)

Module Utilities.

(** *** countWords *)

Definition codepoint : Type := Z.

Definition in_range (lo hi c : codepoint) : bool := (lo <=? c) && (c <=? hi).

(** The class [\s] of ECMAScript: white space and line terminators. *)
Definition white_space (c : codepoint) : bool :=
  in_range 0x09 0x0D c || (c =? 0x20) || (c =? 0xA0) || (c =? 0x1680)
  || in_range 0x2000 0x200A c || (c =? 0x2028) || (c =? 0x2029)
  || (c =? 0x202F) || (c =? 0x205F) || (c =? 0x3000) || (c =? 0xFEFF).

(** [[\n\s]] *)
Definition space_class (c : codepoint) : bool := (c =? 0x0A) || white_space c.

Section Words.
(** The Unicode property [Extended_Pictographic] is a table of the
    JavaScript engine, not of the repository: it is a parameter. *)
Variable Extended_Pictographic : codepoint → bool.

(** [[a-zA-Z0-9À-ſ\p{Extended_Pictographic}\u{1F3FB}-\u{1F3FF}\u{1F9B0}-\u{1F9B3}]] *)
Definition word_class (c : codepoint) : bool :=
  in_range 0x61 0x7A c || in_range 0x41 0x5A c || in_range 0x30 0x39 c
  || in_range 0xC0 0x17F c || Extended_Pictographic c
  || in_range 0x1F3FB 0x1F3FF c || in_range 0x1F9B0 0x1F9B3 c.

(** Greedy [[cls]{0,}] followed by the continuation [k], with
    backtracking: the longest run is tried first, then shorter ones.
    A continuation returns the input left after the whole match. *)
Fixpoint re_star (cls : codepoint → bool) (s : list codepoint)
    (k : list codepoint → option (list codepoint)) : option (list codepoint) :=
  match s with
  | c :: s' =>
      if cls c then
        match re_star cls s' k with
        | Some rest => Some rest
        | None => k s
        end
      else k s
  | [] => k []
  end.

(** Greedy [[cls]+]. *)
Definition re_plus (cls : codepoint → bool) (s : list codepoint)
    (k : list codepoint → option (list codepoint)) : option (list codepoint) :=
  match s with
  | c :: s' => if cls c then re_star cls s' k else None
  | [] => None
  end.

(** The pattern of [countWords], matched at the start of [s]. *)
Definition regex_at (s : list codepoint) : option (list codepoint) :=
  re_star space_class s (λ s1,
    re_plus word_class s1 (λ s2,
      re_star space_class s2 Some)).

(** One [exec] of the global expression: the first position at or after
    the start of [s] where the pattern matches; the result is the matched
    text and the input after it. *)
Fixpoint regex_exec (s : list codepoint)
    : option (list codepoint * list codepoint) :=
  match regex_at s with
  | Some rest => Some (take (length s - length rest) s, rest)
  | None =>
      match s with
      | [] => None
      | _ :: s' => regex_exec s'
      end
  end.

(** The matches collected by [String.prototype.match] with the [g] flag.
    Every match of this pattern is non-empty, so the next search starts
    where the last match ended. *)
Fixpoint match_loop (fuel : nat) (s : list codepoint) : list (list codepoint) :=
  match fuel with
  | O => []
  | S fuel' =>
      match regex_exec s with
      | Some (m, rest) => m :: match_loop fuel' rest
      | None => []
      end
  end.

(** [targetString.match(regex)]: [null] (here [None]) without a match. *)
Definition String_match (s : list codepoint) : option (list (list codepoint)) :=
  match match_loop (S (length s)) s with
  | [] => None
  | ms => Some ms
  end.

(** [const words = targetString.match(regex) || ''; return words.length] *)
Definition countWords (targetString : list codepoint) : Z :=
  match String_match targetString with
  | Some words => Z.of_nat (length words)
  | None => Z.of_nat (String.length "")
  end.
End Words.

(** *** getReadTime *)

(** The number a non-negative integer below 2^53 denotes as a binary64. *)
Definition Number_of_Z (n : Z) : float := PrimFloat.of_uint63 (Uint63.of_Z n).

(** [Math.ceil] of a finite binary64, as an integer.  The estimators apply
    it to a count divided by a positive constant, which is finite; the
    other cases are mapped to 0. *)
Definition Math_ceil (x : float) : Z :=
  match Prim2SF x with
  | S754_finite sign m e =>
      let mag := Z.pos m in
      if 0 <=? e then (if sign then - (mag * 2 ^ e) else mag * 2 ^ e)
      else
        let d := 2 ^ (- e) in
        if sign then - (mag / d) else (mag + d - 1) / d
  | _ => 0
  end.

Section ReadTime.
Variable Extended_Pictographic : codepoint → bool.

(** [src/js/utilities.js]: the seconds, [Math.ceil(wordNumber / (283 / 60))]. *)
Definition getReadTime (targetString : list codepoint) : Z :=
  let wordNumber := countWords Extended_Pictographic targetString in
  let timeToReadString :=
    Math_ceil (Number_of_Z wordNumber / (283 / 60))%float in
  timeToReadString.

(** The later revision: the seconds, [Math.ceil(wordNumber / (238 / 60))]. *)
Definition getReadTime_seconds' (targetString : list codepoint) : Z :=
  let wordNumber := countWords Extended_Pictographic targetString in
  Math_ceil (Number_of_Z wordNumber / (238 / 60))%float.

(** The later revision: the seconds formatted as ["Xm Ys"] or ["Ys"]. *)
Definition getReadTime' (targetString : list codepoint) : string :=
  let seconds := getReadTime_seconds' targetString in
  let minutes := seconds / 60 in
  let remainingSeconds := seconds mod 60 in
  let formattedTime :=
    if 0 <? minutes
    then pretty minutes +:+ "m " +:+ pretty remainingSeconds +:+ "s"
    else pretty remainingSeconds +:+ "s" in
  formattedTime.
End ReadTime.

(** The formula of the specification, in exact arithmetic:
    [ceil(wordCount / (wordsPerMinute / 60))]. *)
Definition estimateReadSeconds (wordsPerMinute wordCount : Z) : Z :=
  (wordCount * 60 + wordsPerMinute - 1) / wordsPerMinute.

(** *** generateID *)

(** [frontTag + time + backTag]; an omitted tag is the empty string. *)
Definition generateID (frontTag backTag : string) (time : Z) : string :=
  frontTag +:+ pretty time +:+ backTag.

End Utilities.

(* ================================================================== *)
(** ** The persisted record format *)
(* ================================================================== *)

(** [{id, title, content, accentColor}] *)
Record NoteRecord : Type := mkNoteRecord {
  rec_id : string;
  rec_title : string;
  rec_content : string;
  rec_accentColor : string;
}.

(** [{title, id, created, lastUpdate, notes: [...]}] *)
Record NotepadRecord : Type := mkNotepadRecord {
  np_title : string;
  np_id : string;
  np_created : Z;
  np_lastUpdate : Z;
  np_notes : list NoteRecord;
}.

(** The argument of [newNote]: every property may be absent. *)
Record NoteProperties : Type := mkNoteProperties {
  prop_id : jsval;
  prop_title : jsval;
  prop_content : jsval;
  prop_accentColor : jsval;
}.

(** [newNote(undefined)]: the default argument [{}]. *)
Definition no_properties : NoteProperties := mkNoteProperties None None None None.

(** A note of a record, passed to [newNote] by [forEach]. *)
Definition properties_of_record (n : NoteRecord) : NoteProperties :=
  mkNoteProperties (Some (rec_id n)) (Some (rec_title n))
                   (Some (rec_content n)) (Some (rec_accentColor n)).

(* ================================================================== *)
(** ** The browser: objects, local storage, alerts and the console *)
(* ================================================================== *)

Definition loc : Type := positive.

(** A notepad object on the heap.  Its [notes] property is a reference to
    an array, shared by every object that copied the property. *)
Record NotepadObject : Type := mkNotepadObject {
  obj_title : string;
  obj_id : string;
  obj_created : Z;
  obj_lastUpdate : Z;
  obj_notes : loc;
}.

Record Browser : Type := mkBrowser {
  objects : gmap loc NotepadObject;
  arrays : gmap loc (list NoteRecord);
  (** The item ['notepads'] of [localStorage], parsed; [None] when unset. *)
  localStorage : option (gmap string NotepadRecord);
  (** Whether [localStorage.setItem] accepts a value or throws on quota. *)
  quota : gmap string NotepadRecord → bool;
  (** The messages shown by [alert], oldest first. *)
  alerts : list string;
  (** The lines written by [console.error], oldest first. *)
  console : list string;
  b_tick : nat;
}.

Definition set_objects (o : gmap loc NotepadObject) (b : Browser) : Browser :=
  mkBrowser o (arrays b) (localStorage b) (quota b) (alerts b) (console b) (b_tick b).
Definition set_localStorage (l : option (gmap string NotepadRecord)) (b : Browser) : Browser :=
  mkBrowser (objects b) (arrays b) l (quota b) (alerts b) (console b) (b_tick b).
Definition set_alerts (a : list string) (b : Browser) : Browser :=
  mkBrowser (objects b) (arrays b) (localStorage b) (quota b) a (console b) (b_tick b).
Definition set_console (c : list string) (b : Browser) : Browser :=
  mkBrowser (objects b) (arrays b) (localStorage b) (quota b) (alerts b) c (b_tick b).
Definition set_b_tick (t : nat) (b : Browser) : Browser :=
  mkBrowser (objects b) (arrays b) (localStorage b) (quota b) (alerts b) (console b) t.

Definition alert (message : string) : M Browser unit :=
  modify (λ b, set_alerts (alerts b ++ [message]) b).

Definition console_error (message : string) (error : exn) : M Browser unit :=
  modify (λ b, set_console (console b ++ [message +:+ " " +:+ exn_toString error]) b).

Module Fallback.

(** [dataFallbackMode] of [src/js/utilities.js]. *)
Definition dataFallbackMode {D : Type} (oldData newData : D)
    (action : D → M Browser unit) : M Browser unit :=
  try_catch
    (action newData)
    (λ error,
       do! action oldData in
       alert ("The action could not be performed." +:+ newline +:+ exn_toString error)).

(** [dataFallbackMode] of the later revision of the utilities. *)
Definition dataFallbackMode' {D : Type} (oldData newData : D)
    (action : D → M Browser unit) : M Browser unit :=
  try_catch
    (action newData)
    (λ error,
       do! console_error "Action failed, reverting." error in
       action oldData).

End Fallback.

(* ================================================================== *)
(** ** notepad.js: the notes index, a [Map] from position to note id *)
(* ================================================================== *)

(** A JavaScript [Map] with number keys: its entries in insertion order.
    A value is a note id or [undefined]. *)
Module JSMap.

Definition t : Type := list (Z * jsval).

Definition empty : t := [].

Definition size (m : t) : Z := Z.of_nat (length m).

Definition keys (m : t) : list Z := m.*1.

Definition values (m : t) : list jsval := m.*2.

(** [m.get(k)]: [undefined] for a key that is not there. *)
Fixpoint get (k : Z) (m : t) : jsval :=
  match m with
  | [] => None
  | (k', v) :: m' => if k' =? k then v else get k m'
  end.

Fixpoint has (k : Z) (m : t) : bool :=
  match m with
  | [] => false
  | (k', _) :: m' => (k' =? k) || has k m'
  end.

(** [m.set(k, v)]: a present key keeps its place, a new key goes last. *)
Fixpoint set (k : Z) (v : jsval) (m : t) : t :=
  match m with
  | [] => [(k, v)]
  | (k', v') :: m' => if k' =? k then (k, v) :: m' else (k', v') :: set k v m'
  end.

(** [m.delete(k)] *)
Fixpoint delete (k : Z) (m : t) : t :=
  match m with
  | [] => []
  | (k', v') :: m' => if k' =? k then m' else (k', v') :: delete k m'
  end.

End JSMap.

(* ================================================================== *)
(** ** notepad.js: the notes of the page *)
(* ================================================================== *)

(** The attribute [data-note-index] of a note.  It is written from a
    position or from [undefined], and a new note has none. *)
Inductive dataAttr : Type :=
| AttrAbsent
| AttrNumber (z : Z)
| AttrUndefined.

Global Instance dataAttr_eq_dec : EqDecision dataAttr.
Proof. solve_decision. Defined.

(** A child of the notes container: the [div.note] built by [#createNote],
    with the parts the ordering code reads or writes. *)
Record NoteElement : Type := mkNoteElement {
  note_id : string;                 (* note.id *)
  note_title : string;              (* .note-title innerText *)
  note_text : string;               (* .note-text innerText *)
  data_accent_color : string;       (* .note-title-container data-accent-color *)
  data_note_index : dataAttr;       (* note data-note-index *)
  note_index_value : option Z;      (* input.note-index value and defaultValue *)
  note_index_max : Z;               (* input.note-index max *)
}.

Definition set_data_note_index (a : dataAttr) (n : NoteElement) : NoteElement :=
  mkNoteElement (note_id n) (note_title n) (note_text n) (data_accent_color n)
                a (note_index_value n) (note_index_max n).
Definition set_note_index_value (v : option Z) (n : NoteElement) : NoteElement :=
  mkNoteElement (note_id n) (note_title n) (note_text n) (data_accent_color n)
                (data_note_index n) v (note_index_max n).
Definition set_note_index_max (z : Z) (n : NoteElement) : NoteElement :=
  mkNoteElement (note_id n) (note_title n) (note_text n) (data_accent_color n)
                (data_note_index n) (note_index_value n) z.
Definition set_data_accent_color (c : string) (n : NoteElement) : NoteElement :=
  mkNoteElement (note_id n) (note_title n) (note_text n) c
                (data_note_index n) (note_index_value n) (note_index_max n).
Definition set_note_title (t : string) (n : NoteElement) : NoteElement :=
  mkNoteElement (note_id n) t (note_text n) (data_accent_color n)
                (data_note_index n) (note_index_value n) (note_index_max n).
Definition set_note_text (t : string) (n : NoteElement) : NoteElement :=
  mkNoteElement (note_id n) (note_title n) t (data_accent_color n)
                (data_note_index n) (note_index_value n) (note_index_max n).

(** What a record keeps of a note. *)
Definition note_data (n : NoteElement) : NoteRecord :=
  mkNoteRecord (note_id n) (note_title n) (note_text n) (data_accent_color n).

(** The private state of a [Notepad] and the part of the page it owns. *)
Record Notepad : Type := mkNotepad {
  notepad_id : string;                  (* #notepad.id *)
  notepadCreated : Z;                   (* #notepad.dataset.notepadCreated *)
  notepadLastUpdate : Z;                (* #notepad.dataset.notepadLastUpdate *)
  header : string;                      (* #header.innerText *)
  notesContainer : list NoteElement;    (* the children of #notesContainer *)
  notesContainerIndex : JSMap.t;        (* #notesContainerIndex *)
  accentColors : list string;           (* #accentColors *)
  tick : nat;                           (* readings of the clock so far *)
}.

Definition set_notepad_id (x : string) (s : Notepad) : Notepad :=
  mkNotepad x (notepadCreated s) (notepadLastUpdate s) (header s)
            (notesContainer s) (notesContainerIndex s) (accentColors s) (tick s).
Definition set_notepadCreated (x : Z) (s : Notepad) : Notepad :=
  mkNotepad (notepad_id s) x (notepadLastUpdate s) (header s)
            (notesContainer s) (notesContainerIndex s) (accentColors s) (tick s).
Definition set_notepadLastUpdate (x : Z) (s : Notepad) : Notepad :=
  mkNotepad (notepad_id s) (notepadCreated s) x (header s)
            (notesContainer s) (notesContainerIndex s) (accentColors s) (tick s).
Definition set_header (x : string) (s : Notepad) : Notepad :=
  mkNotepad (notepad_id s) (notepadCreated s) (notepadLastUpdate s) x
            (notesContainer s) (notesContainerIndex s) (accentColors s) (tick s).
Definition set_notesContainer (x : list NoteElement) (s : Notepad) : Notepad :=
  mkNotepad (notepad_id s) (notepadCreated s) (notepadLastUpdate s) (header s)
            x (notesContainerIndex s) (accentColors s) (tick s).
Definition set_notesContainerIndex (x : JSMap.t) (s : Notepad) : Notepad :=
  mkNotepad (notepad_id s) (notepadCreated s) (notepadLastUpdate s) (header s)
            (notesContainer s) x (accentColors s) (tick s).
Definition set_accentColors (x : list string) (s : Notepad) : Notepad :=
  mkNotepad (notepad_id s) (notepadCreated s) (notepadLastUpdate s) (header s)
            (notesContainer s) (notesContainerIndex s) x (tick s).
Definition set_tick (x : nat) (s : Notepad) : Notepad :=
  mkNotepad (notepad_id s) (notepadCreated s) (notepadLastUpdate s) (header s)
            (notesContainer s) (notesContainerIndex s) (accentColors s) x.

(** [#defaults] *)
Module Defaults.
Definition accentColors : list string :=
  [""; "#fde6e6"; "#ebf2f9"; "#fefbe6"; "#feddc9"; "#e5f4da"; "#f2eef9"].
Definition notepadTitle : string := "New notepad".
Definition noteTitle : string := "New note".
Definition tag_note : string := "note".
Definition tag_notepad : string := "notepad".
End Defaults.

(* ================================================================== *)
(** ** notepad.js: the accent colour of a note *)
(* ================================================================== *)

Module Color.
Import Stdlib.Strings.Ascii.

(** [[A-Fa-f0-9]] *)
Definition hex_digit (c : ascii) : bool :=
  let n := nat_of_ascii c in
  ((65 <=? n) && (n <=? 70) || (97 <=? n) && (n <=? 102)
   || (48 <=? n) && (n <=? 57))%nat.

(** [[A-Fa-f0-9]{n}] at the start of [s]: the input after it. *)
Fixpoint hex_digits (n : nat) (s : string) : option string :=
  match n with
  | O => Some s
  | S n' =>
      match s with
      | String c s' => if hex_digit c then hex_digits n' s' else None
      | EmptyString => None
      end
  end.

Definition at_end (r : option string) : bool :=
  match r with
  | Some EmptyString => true
  | _ => false
  end.

(** [/^#([A-Fa-f0-9]{6}|[A-Fa-f0-9]{3})$/.test(s)]: six digits are tried
    first, then three; without the [m] flag the anchors are the two ends
    of the input. *)
Definition hexColorRegex_test (s : string) : bool :=
  match s with
  | String c s' =>
      if Ascii.eqb c "#" then at_end (hex_digits 6 s') || at_end (hex_digits 3 s')
      else false
  | EmptyString => false
  end.

(** [toLowerCase] of one character, for the characters of ASCII. *)
Definition lower (c : ascii) : ascii :=
  let n := nat_of_ascii c in
  if ((65 <=? n) && (n <=? 90))%nat then ascii_of_nat (n + 32) else c.

(** [s.toLowerCase()]; it is applied to matches of the pattern only, which
    are ASCII. *)
Fixpoint toLowerCase (s : string) : string :=
  match s with
  | EmptyString => EmptyString
  | String c s' => String (lower c) (toLowerCase s')
  end.

(** [noteProperties.accentColor && hexColorRegex.test(noteProperties.accentColor)
       ? noteProperties.accentColor.toLowerCase() : ''] *)
Definition accentColor_of (accentColor : jsval) : string :=
  if truthy accentColor && hexColorRegex_test (to_id accentColor)
  then toLowerCase (to_id accentColor)
  else "".

(** The six-or-three hexadecimal digits notation, as the words describe it. *)
Definition is_hex_color (s : string) : Prop :=
  ∃ digits : string,
    s = String "#" digits
    ∧ (String.length digits = 3%nat ∨ String.length digits = 6%nat)
    ∧ Forall (λ c, hex_digit c = true) (String.list_ascii_of_string digits).

End Color.

(* ================================================================== *)
(** ** notepad.js: the methods of [Notepad] *)
(* ================================================================== *)

(** A reference to a note while another note is detached from the
    container: the detached note itself, or a child by its position. *)
Inductive noderef : Type :=
| Detached
| Child (p : nat).

Section NotepadMethods.

(** The readings of [Date.now()], in the order they are taken. *)
Variable clock : nat → Z.

Definition Date_now : M Notepad Z :=
  λ s, (Done (clock (tick s)), set_tick (S (tick s)) s).

(** [document.getElementById(id)], for the ids of notes: the first note in
    document order with this id, and its position among the children of
    the notes container.  Ids of elements outside the container are left
    out: a note is assumed not to share the id of one of them. *)
Definition getElementById (id : string) : M Notepad (option (nat * NoteElement)) :=
  gets (λ s, list_find (λ n, note_id n = id) (notesContainer s)).

(** [#notesContainer.querySelector('[data-note-index="' + index + '"]')] *)
Definition querySelector_note_index (index : Z) : M Notepad (option (nat * NoteElement)) :=
  gets (λ s, list_find (λ n, data_note_index n = AttrNumber index) (notesContainer s)).

(** An assignment to a property of the child at position [i]. *)
Definition update_child (i : nat) (f : NoteElement → NoteElement) : M Notepad unit :=
  modify (λ s, set_notesContainer (alter f i (notesContainer s)) s).

(** [child.remove()] *)
Definition remove_child (i : nat) : M Notepad unit :=
  modify (λ s, set_notesContainer (delete i (notesContainer s)) s).

(** [parent.insertAdjacentElement('beforeend', element)] *)
Definition append_child (n : NoteElement) : M Notepad unit :=
  modify (λ s, set_notesContainer (notesContainer s ++ [n]) s).

(** After the child at position [i] is removed, the note that was at
    position [j]. *)
Definition ref_after_remove (i j : nat) : noderef :=
  if (j =? i)%nat then Detached
  else if (j <? i)%nat then Child j
  else Child (j - 1).

(** [#notesContainer.insertBefore(note, child)], for a detached [note]:
    at the end when [child] is [null]; an error when [child] is not a
    child of the container, which here is the detached note itself. *)
Definition insertBefore (note : NoteElement) (child : option noderef) : M Notepad unit :=
  match child with
  | None => append_child note
  | Some Detached =>
      throw (NotFoundError "The node before which the new node is to be inserted is not a child of this node.")
  | Some (Child p) =>
      modify (λ s, set_notesContainer
                     (take p (notesContainer s) ++ note :: drop p (notesContainer s)) s)
  end.

(** [node.nextSibling]; a detached node has none. *)
Definition nextSibling (r : noderef) : M Notepad (option noderef) :=
  match r with
  | Detached => ret None
  | Child p =>
      gets (λ s, if (S p <? length (notesContainer s))%nat
                 then Some (Child (S p)) else None)
  end.

Definition index_size : M Notepad Z :=
  gets (λ s, JSMap.size (notesContainerIndex s)).
Definition index_get (k : Z) : M Notepad jsval :=
  gets (λ s, JSMap.get k (notesContainerIndex s)).
Definition index_set (k : Z) (v : jsval) : M Notepad unit :=
  modify (λ s, set_notesContainerIndex (JSMap.set k v (notesContainerIndex s)) s).

(** One turn of the loop of [#indexNotes], for the key [index]. *)
Definition indexNotes_turn (index : Z) : M Notepad unit :=
  let! id := index_get index in
  let! note := getElementById (to_id id) in
  match note with
  | None => throw (TypeError "Cannot read properties of null (reading 'dataset')")
  | Some (i, _) =>
      do! update_child i (set_data_note_index (AttrNumber index)) in
      do! update_child i (set_note_index_value (Some index)) in
      let! size := index_size in
      update_child i (set_note_index_max size)
  end.

(** [#indexNotes]: a turn for every entry of the index, in its order. *)
Definition indexNotes : M Notepad unit :=
  let! entries := gets notesContainerIndex in
  for_each (JSMap.keys entries) indexNotes_turn.

(** [#createNote]: the new element; its [data-note-index] is not set and
    the position input has no value yet. *)
Definition createNote (noteID noteTitle noteText noteAccentColor : string)
    (noteIndex : Z) : NoteElement :=
  mkNoteElement noteID noteTitle noteText noteAccentColor AttrAbsent None noteIndex.

(** [newNote(noteProperties)].  [#runNoteCounters] writes the counters of
    the new note, which this model does not carry; it finds the note it
    is given, so it does not throw. *)
Definition newNote (noteProperties : NoteProperties) : M Notepad unit :=
  let! size := index_size in
  let index := size + 1 in
  let! noteID :=
    (if truthy (prop_id noteProperties) then ret (to_id (prop_id noteProperties))
     else let! now := Date_now in
          ret (Utilities.generateID Defaults.tag_note (pretty index) now)) in
  let title := default Defaults.noteTitle (prop_title noteProperties) in
  let content := default "" (prop_content noteProperties) in
  let accentColor := Color.accentColor_of (prop_accentColor noteProperties) in
  do! modify (λ s, if bool_decide (accentColor ∈ accentColors s) then s
                   else set_accentColors (accentColors s ++ [accentColor]) s) in
  let newNote := createNote noteID title content accentColor index in
  do! append_child newNote in
  let! size := index_size in
  do! index_set (size + 1) (Some noteID) in
  indexNotes.

(** [key < index] and [key > index] for the string read from the
    attribute: a missing attribute is [null], that is 0, and the string
    ["undefined"] is not a number. *)
Definition lt_attr (key : Z) (index : dataAttr) : bool :=
  match index with
  | AttrNumber z => key <? z
  | AttrAbsent => key <? 0
  | AttrUndefined => false
  end.
Definition gt_attr (key : Z) (index : dataAttr) : bool :=
  match index with
  | AttrNumber z => z <? key
  | AttrAbsent => 0 <? key
  | AttrUndefined => false
  end.

(** [parseInt(index)]; [None] is [NaN]. *)
Definition parseInt (index : dataAttr) : option Z :=
  match index with
  | AttrNumber z => Some z
  | _ => None
  end.

(** The loop of [deleteNote]: one turn, for [key], on the index that is
    rebuilt. *)
Definition rebuild_step (originalNoteIndex : JSMap.t) (index : dataAttr)
    (m : JSMap.t) (key : Z) : JSMap.t :=
  if truthy (JSMap.get key originalNoteIndex) && lt_attr key index
  then JSMap.set key (JSMap.get key originalNoteIndex) m
  else if truthy (JSMap.get key originalNoteIndex) && gt_attr key index
  then JSMap.set (key - 1) (JSMap.get key originalNoteIndex) m
  else m.

(** [deleteNote(noteID)] *)
Definition deleteNote (noteID : string) : M Notepad unit :=
  let! note := getElementById noteID in
  match note with
  | None => throw (TypeError "Cannot read properties of null (reading 'remove')")
  | Some (i, el) =>
      do! remove_child i in
      let index := data_note_index el in
      let! originalNoteIndex := gets notesContainerIndex in
      do! modify (λ s, match parseInt index with
                       | Some k => set_notesContainerIndex
                                     (JSMap.delete k (notesContainerIndex s)) s
                       | None => s
                       end) in
      do! modify (set_notesContainerIndex JSMap.empty) in
      do! modify (λ s,
            set_notesContainerIndex
              (fold_left (rebuild_step originalNoteIndex index)
                 (seqZ 1 (JSMap.size originalNoteIndex))
                 (notesContainerIndex s)) s) in
      indexNotes
  end.

(** [array[i]] for an array of ids: [undefined] outside the array. *)
Definition array_get (array : list jsval) (i : Z) : jsval :=
  if i <? 0 then None else default None (array !! Z.to_nat i).

(** The first loop of [moveNote]: one turn, on the index and on the local
    array [cachedNoteIDs]. *)
Definition shift_up_step (oldIndex newIndex : Z)
    (st : JSMap.t * list jsval) (index : Z) : JSMap.t * list jsval :=
  let '(m, cachedNoteIDs) := st in
  if (newIndex + 1 <? index) && (index <=? oldIndex) then
    let cachedNoteIDs := cachedNoteIDs ++ [JSMap.get index m] in
    (JSMap.set index
       (array_get cachedNoteIDs (Z.of_nat (length cachedNoteIDs) - 2)) m,
     cachedNoteIDs)
  else st.

(** The second loop of [moveNote]: one turn. *)
Definition shift_down_step (oldIndex newIndex : Z) (cachedMovedNoteID : jsval)
    (m : JSMap.t) (index : Z) : JSMap.t :=
  if (oldIndex <=? index) && (index <? newIndex) then
    JSMap.set index (JSMap.get (index + 1) m) m
  else if index =? newIndex then
    JSMap.set index cachedMovedNoteID m
  else m.

(** [moveNote(noteID, oldIndex, newIndex)].  The loops run over the keys
    of the index; a turn sets a key that is there, so the keys and their
    order are those at the start of the loop. *)
Definition moveNote (noteID : string) (oldIndex newIndex : Z) : M Notepad unit :=
  let! note := getElementById noteID in
  match note with
  | None => ret tt
  | Some (i, note) =>
      let! size := index_size in
      let newIndex := if newIndex <=? size then newIndex else size in
      let! currentNote := querySelector_note_index newIndex in
      let currentNote := (λ c, ref_after_remove i c.1) <$> currentNote in
      let note := set_data_note_index AttrUndefined note in
      let note := set_note_index_value (Some newIndex) note in
      do! remove_child i in
      let! cachedMovedNoteID := index_get oldIndex in
      let! cachedNoteID := index_get newIndex in
      do! (if newIndex <? oldIndex then
             do! insertBefore note currentNote in
             let! next := index_get (newIndex + 1) in
             let cachedNoteIDs := [next] in
             do! index_set (newIndex + 1) cachedNoteID in
             do! index_set newIndex cachedMovedNoteID in
             modify (λ s,
               set_notesContainerIndex
                 (fold_left (shift_up_step oldIndex newIndex)
                    (JSMap.keys (notesContainerIndex s))
                    (notesContainerIndex s, cachedNoteIDs)).1 s)
           else
             do! match currentNote with
                 | None =>
                     throw (TypeError "Cannot read properties of null (reading 'nextSibling')")
                 | Some r =>
                     let! sibling := nextSibling r in
                     insertBefore note sibling
                 end in
             modify (λ s,
               set_notesContainerIndex
                 (fold_left (shift_down_step oldIndex newIndex cachedMovedNoteID)
                    (JSMap.keys (notesContainerIndex s))
                    (notesContainerIndex s)) s)) in
      indexNotes
  end.

(** [#changeNoteAccentColor(noteID)] *)
Definition changeNoteAccentColor (noteID : string) : M Notepad unit :=
  let! note := getElementById noteID in
  match note with
  | None => throw (TypeError "Cannot read properties of null (reading 'querySelector')")
  | Some (i, el) =>
      let currentColor :=
        if truthy (Some (data_accent_color el))
        then Color.toLowerCase (data_accent_color el) else "" in
      let! colors := gets accentColors in
      let nextColor : jsval :=
        match list_find (λ c, c = currentColor) colors with
        | Some (currentColorIndex, _) =>
            if bool_decide (currentColorIndex ≠ (length colors - 1)%nat)
            then colors !! S currentColorIndex
            else colors !! 0%nat
        | None => colors !! 0%nat
        end in
      update_child i (set_data_accent_color (if truthy nextColor then to_id nextColor else ""))
  end.

(** [newNotepad(addNewNote)] *)
Definition newNotepad (addNewNote : bool) : M Notepad unit :=
  do! modify (set_notesContainer []) in
  do! modify (set_notesContainerIndex JSMap.empty) in
  do! (if addNewNote then newNote no_properties else ret tt) in
  let! now := Date_now in
  do! modify (set_notepad_id (Utilities.generateID Defaults.tag_notepad "" now)) in
  let! currentTime := Date_now in
  do! modify (set_notepadCreated currentTime) in
  do! modify (set_notepadLastUpdate currentTime) in
  do! modify (set_header Defaults.notepadTitle) in
  modify (set_accentColors Defaults.accentColors).

(** [#retrieveNotepad()].  The notes are read from the page, in document
    order.  [Number(created) || currentTime] falls back on the clock for
    0; on a string, [x || ''] is [x]. *)
Definition retrieveNotepad : M Notepad NotepadRecord :=
  let! notes := gets notesContainer in
  let! notepadID := gets notepad_id in
  let! currentTime := Date_now in
  let! created := gets notepadCreated in
  let notepadCreated := if created =? 0 then currentTime else created in
  let! notepadTitle := gets header in
  ret (mkNotepadRecord notepadTitle notepadID notepadCreated currentTime
         (note_data <$> notes)).

(** [#fillNotepad(notepad, clear)] *)
Definition fillNotepad (notepad : NotepadRecord) (clear : bool) : M Notepad unit :=
  do! (if clear then newNotepad false else ret tt) in
  do! modify (set_notepad_id (np_id notepad)) in
  do! modify (set_notepadCreated (np_created notepad)) in
  do! modify (set_notepadLastUpdate (np_lastUpdate notepad)) in
  do! modify (set_header (np_title notepad)) in
  if (0 <? length (np_notes notepad))%nat then
    for_each (np_notes notepad) (λ noteProperties,
      newNote (properties_of_record noteProperties))
  else ret tt.

(** The constructor, on the page before it has a notepad: the id and the
    timestamps, the header, then the notes container with its first note. *)
Definition blank_page (t : nat) : Notepad :=
  mkNotepad "" 0 0 "" [] JSMap.empty Defaults.accentColors t.

Definition constructor : M Notepad unit :=
  let! now := Date_now in
  do! modify (set_notepad_id (Utilities.generateID Defaults.tag_notepad "" now)) in
  let! currentTime := Date_now in
  do! modify (set_notepadCreated currentTime) in
  do! modify (set_notepadLastUpdate currentTime) in
  do! modify (set_header Defaults.notepadTitle) in
  newNote no_properties.

(** What the user types in the editable parts of the page. *)
Inductive edit : Type :=
| EditHeader (text : string)
| EditNoteTitle (i : nat) (text : string)
| EditNoteText (i : nat) (text : string).

Definition apply_edit (e : edit) (s : Notepad) : Notepad :=
  match e with
  | EditHeader text => set_header text s
  | EditNoteTitle i text =>
      set_notesContainer (alter (set_note_title text) i (notesContainer s)) s
  | EditNoteText i text =>
      set_notesContainer (alter (set_note_text text) i (notesContainer s)) s
  end.

(** The calls the page makes on a notepad. *)
Inductive call : Type :=
| CallNewNote (noteProperties : NoteProperties)
| CallDeleteNote (noteID : string)
| CallMoveNote (noteID : string) (oldIndex newIndex : Z)
| CallChangeNoteAccentColor (noteID : string)
| CallNewNotepad (addNewNote : bool)
| CallFillNotepad (notepad : NotepadRecord) (clear : bool).

Definition run_call (c : call) : M Notepad unit :=
  match c with
  | CallNewNote noteProperties => newNote noteProperties
  | CallDeleteNote noteID => deleteNote noteID
  | CallMoveNote noteID oldIndex newIndex => moveNote noteID oldIndex newIndex
  | CallChangeNoteAccentColor noteID => changeNoteAccentColor noteID
  | CallNewNotepad addNewNote => newNotepad addNewNote
  | CallFillNotepad notepad clear => fillNotepad notepad clear
  end.

(** The states a notepad goes through: the constructor, then calls and
    edits; a call that throws leaves the state it reached. *)
Inductive reachable : Notepad → Prop :=
| reachable_constructor t :
    reachable (state_after constructor (blank_page t))
| reachable_call c s :
    reachable s → reachable (state_after (run_call c) s)
| reachable_edit e s :
    reachable s → reachable (apply_edit e s).

End NotepadMethods.

(* ================================================================== *)
(** ** notepad.js: the stored notepads *)
(* ================================================================== *)

Section StoredNotepads.

Variable clock : nat → Z.

Definition Date_now_b : M Browser Z :=
  λ b, (Done (clock (b_tick b)), set_b_tick (S (b_tick b)) b).

(** What [JSON.stringify] writes for a notepad object: its properties,
    and the notes of the array it refers to. *)
Definition record_of (b : Browser) (o : NotepadObject) : NotepadRecord :=
  mkNotepadRecord (obj_title o) (obj_id o) (obj_created o) (obj_lastUpdate o)
                  (default [] (arrays b !! obj_notes o)).

(** An assignment to a property of the object at [l]. *)
Definition update_object (l : loc) (f : NotepadObject → NotepadObject) : M Browser unit :=
  modify (λ b, set_objects (alter f l (objects b)) b).

(** The object a reference points to.  References are taken from the
    heap, so the error of the last case does not arise. *)
Definition deref (l : loc) : M Browser NotepadObject :=
  λ b, match objects b !! l with
       | Some o => (Done o, b)
       | None => (Throws (TypeError "not an object"), b)
       end.

(** [localStorage.setItem('notepads', JSON.stringify(notepadsObject))] *)
Definition setItem (notepadsObject : gmap string NotepadRecord) : M Browser unit :=
  λ b, if quota b notepadsObject
       then (Done tt, set_localStorage (Some notepadsObject) b)
       else (Throws QuotaExceededError, b).

(** [#storeNotepad(notepad)], for a notepad that is given. *)
Definition storeNotepad (notepad : loc) : M Browser unit :=
  let! notepads := gets localStorage in
  let notepadsObject := default ∅ notepads in
  let! toBeStoredNotepad := deref notepad in
  let! json := gets (λ b, record_of b toBeStoredNotepad) in
  let notepadsObject := <[obj_id toBeStoredNotepad := json]> notepadsObject in
  try_catch (setItem notepadsObject)
            (λ error, alert ("Local storage error." +:+ newline +:+ exn_toString error)).

(** [Object.assign({}, notepad)]: a new object with the properties of
    [notepad]; the [notes] array is shared. *)
Definition Object_assign_empty (notepad : loc) : M Browser loc :=
  let! o := deref notepad in
  let! l := gets (λ b, fresh (dom (objects b))) in
  do! modify (λ b, set_objects (<[l := o]> (objects b)) b) in
  ret l.

(** [#duplicateNotepad(notepad)] *)
Definition duplicateNotepad (notepad : loc) : M Browser loc :=
  let! duplicatedNotepad := Object_assign_empty notepad in
  let! now := Date_now_b in
  do! update_object duplicatedNotepad (λ o,
        mkNotepadObject (obj_title o)
          (Utilities.generateID Defaults.tag_notepad "" now)
          (obj_created o) (obj_lastUpdate o) (obj_notes o)) in
  do! update_object duplicatedNotepad (λ o,
        mkNotepadObject (obj_title o +:+ " (Copy)") (obj_id o)
          (obj_created o) (obj_lastUpdate o) (obj_notes o)) in
  let! currentTime := Date_now_b in
  do! update_object duplicatedNotepad (λ o,
        mkNotepadObject (obj_title o) (obj_id o)
          currentTime (obj_lastUpdate o) (obj_notes o)) in
  do! update_object duplicatedNotepad (λ o,
        mkNotepadObject (obj_title o) (obj_id o)
          (obj_created o) currentTime (obj_notes o)) in
  do! storeNotepad duplicatedNotepad in
  ret duplicatedNotepad.

End StoredNotepads.

(* ================================================================== *)
(** ** Words of the statements *)
(* ================================================================== *)

(** Inputs the properties are tried on. *)
Module Samples.
Import Utilities.

(** A part of the table of pictographs: the block Miscellaneous Symbols and
    Pictographs, U+1F300 to U+1F5FF. *)
Definition sample_pictographic (c : codepoint) : bool := in_range 0x1F300 0x1F5FF c.

(** ["Hello world 🎉"], the last code point being U+1F389 PARTY POPPER. *)
Definition hello_world : list codepoint :=
  [72; 101; 108; 108; 111; 32; 119; 111; 114; 108; 100; 32; 0x1F389].

(** ["a b c d"] *)
Definition four_words : list codepoint := [97; 32; 98; 32; 99; 32; 100].


(** A browser whose storage holds no notepad, and that showed no message. *)
Definition empty_browser : Browser :=
  mkBrowser ∅ ∅ (Some ∅) (λ _, true) [] [] 0.

(** A clock that starts in November 2023 and gains a millisecond a reading. *)
Definition sample_clock (n : nat) : Z := 1700000000000 + Z.of_nat n.

(** A stored notepad of one note, as an object on the heap. *)
Definition sample_object : NotepadObject :=
  mkNotepadObject "Shopping" "notepad1699999999999" 1699999999999 1699999999999 2%positive.

Definition sample_browser : Browser :=
  mkBrowser {[ 1%positive := sample_object ]}
            {[ 2%positive := [mkNoteRecord "note16999999999991" "New note" "milk" ""] ]}
            (Some ∅) (λ _, true) [] [] 0.


(** A stored notepad with the notes [a], [b] and [c]. *)
Definition abc_record : NotepadRecord :=
  mkNotepadRecord "Letters" "notepad1699999999999" 1699999999999 1699999999999
    [mkNoteRecord "a" "A" "first" "";
     mkNoteRecord "b" "B" "second" "#fde6e6";
     mkNoteRecord "c" "C" "third" ""].

(** The page after the constructor ran and the notepad above was opened. *)
Definition abc_notepad : Notepad :=
  state_after (run_call sample_clock (CallFillNotepad abc_record true))
    (state_after (constructor sample_clock) (blank_page 0)).

End Samples.

(** Two states that differ at most in the position written on the notes:
    [data-note-index] and the value and maximum of the position input. *)
Definition same_notes (s s' : Notepad) : Prop :=
  note_data <$> notesContainer s' = note_data <$> notesContainer s
  ∧ notesContainerIndex s' = notesContainerIndex s
  ∧ accentColors s' = accentColors s
  ∧ notepad_id s' = notepad_id s
  ∧ notepadCreated s' = notepadCreated s
  ∧ notepadLastUpdate s' = notepadLastUpdate s
  ∧ header s' = header s
  ∧ tick s' = tick s.

Section NewNoteParts.
Variable clock : nat → Z.

(** The id [newNote] gives the note: the one of the properties, or a
    generated one. *)
Definition newNote_id (noteProperties : NoteProperties) (s : Notepad) : string :=
  if truthy (prop_id noteProperties) then to_id (prop_id noteProperties)
  else Utilities.generateID Defaults.tag_note
         (pretty (JSMap.size (notesContainerIndex s) + 1)) (clock (tick s)).

(** The element [newNote] creates. *)
Definition newNote_element (noteProperties : NoteProperties) (s : Notepad) : NoteElement :=
  createNote (newNote_id noteProperties s)
    (default Defaults.noteTitle (prop_title noteProperties))
    (default "" (prop_content noteProperties))
    (Color.accentColor_of (prop_accentColor noteProperties))
    (JSMap.size (notesContainerIndex s) + 1).

(** The state of [newNote] when it calls [#indexNotes]. *)
Definition newNote_before_index (noteProperties : NoteProperties) (s : Notepad) : Notepad :=
  let accentColor := Color.accentColor_of (prop_accentColor noteProperties) in
  mkNotepad (notepad_id s) (notepadCreated s) (notepadLastUpdate s) (header s)
    (notesContainer s ++ [newNote_element noteProperties s])
    (JSMap.set (JSMap.size (notesContainerIndex s) + 1)
       (Some (newNote_id noteProperties s)) (notesContainerIndex s))
    (if bool_decide (accentColor ∈ accentColors s) then accentColors s
     else accentColors s ++ [accentColor])
    (if truthy (prop_id noteProperties) then tick s else S (tick s)).

End NewNoteParts.

(** The ids of the notes of the page, in document order. *)
Definition ids (s : Notepad) : list string := note_id <$> notesContainer s.

(** The index [m] is a bijection from the positions 1..size onto the ids
    [l]: its keys are 1, 2, ..., size in this order, every position is
    mapped to one of the ids, two positions are not mapped to the same id,
    and every id is the image of a position. *)
Definition bijection_onto (m : JSMap.t) (l : list string) : Prop :=
  let size := Z.of_nat (length l) in
  JSMap.keys m = seqZ 1 size
  ∧ (∀ k, 1 ≤ k ≤ size → ∃ id, JSMap.get k m = Some id ∧ id ∈ l)
  ∧ (∀ k k', 1 ≤ k ≤ size → 1 ≤ k' ≤ size → JSMap.get k m = JSMap.get k' m → k = k')
  ∧ (∀ id, id ∈ l → ∃ k, 1 ≤ k ≤ size ∧ JSMap.get k m = Some id).

(** The notes index of a notepad is a bijection from 1..size onto the ids of
    its notes, which are distinct. *)
Definition index_bijection (s : Notepad) : Prop :=
  bijection_onto (notesContainerIndex s) (ids s) ∧ NoDup (ids s).

(** Every note carries, in [data-note-index], the position the index gives
    its id. *)
Definition positions_written (s : Notepad) : Prop :=
  ∀ n, n ∈ notesContainer s →
    ∃ k, data_note_index n = AttrNumber k
         ∧ JSMap.get k (notesContainerIndex s) = Some (note_id n).

(** What the ordering methods keep, and rely on. *)
Definition index_ok (s : Notepad) : Prop :=
  index_bijection s ∧ Forall (λ id, id ≠ "") (ids s) ∧ positions_written s.

(** What a turn of [#indexNotes] for the key [k] writes on a note. *)
Definition write_position (k size : Z) (n : NoteElement) : NoteElement :=
  set_note_index_max size
    (set_note_index_value (Some k) (set_data_note_index (AttrNumber k) n)).

(** The index [moveNote] leaves, from the index [m] it finds: the two
    branches of the method, for a position [newIndex] that was clamped. *)
Definition moved_index (oldIndex newIndex : Z) (m : JSMap.t) : JSMap.t :=
  if newIndex <? oldIndex then
    let m0 := JSMap.set newIndex (JSMap.get oldIndex m)
                (JSMap.set (newIndex + 1) (JSMap.get newIndex m) m) in
    (fold_left (shift_up_step oldIndex newIndex) (JSMap.keys m0)
       (m0, [JSMap.get (newIndex + 1) m])).1
  else
    fold_left (shift_down_step oldIndex newIndex (JSMap.get oldIndex m))
      (JSMap.keys m) m.



(** The note [moveNote] takes off the page and puts back. *)
Definition moved_note (newIndex : Z) (note : NoteElement) : NoteElement :=
  set_note_index_value (Some newIndex) (set_data_note_index AttrUndefined note).

(** The index of a page filled from the notes [l] of a record: the note
    of position i is the i-th note of [l]. *)
Definition enumerate (l : list NoteRecord) : JSMap.t :=
  imap (λ i n, (Z.of_nat i + 1, Some (rec_id n))) l.

(** An accent colour that passed the check of [newNote]. *)
Definition checked_color (c : string) : Prop := Color.accentColor_of (Some c) = c.

(** A note with an id and a checked accent colour. *)
Definition wf_note (n : NoteElement) : Prop :=
  note_id n ≠ "" ∧ checked_color (data_accent_color n).

(** A notepad whose notes have an id and a checked accent colour, and whose
    palette holds checked colours. *)
Definition well_formed (s : Notepad) : Prop :=
  Forall wf_note (notesContainer s) ∧ Forall checked_color (accentColors s).

Section Calls.
Variable clock : nat → Z.




End Calls.

(** A sequence of calls the properties are tried on. *)
Module CallSamples.
Import Samples.


End CallSamples.

(* ================================================================== *)
(** ** Runs of word characters, and the estimators on a word count *)
(* ================================================================== *)

Module Runs.
Import Utilities.

(** The input after its longest prefix of code points of a class. *)
Fixpoint skip (cls : codepoint → bool) (s : list codepoint) : list codepoint :=
  match s with
  | c :: s' => if cls c then skip cls s' else s
  | [] => []
  end.

(** The words of a text, counted as runs: a word starts at a code point of
    the word class that does not follow one.  [in_word] tells whether the
    code point before [s] is of the word class. *)
Fixpoint word_runs (word : codepoint → bool) (in_word : bool)
    (s : list codepoint) : nat :=
  match s with
  | c :: s' =>
      if word c then (if in_word then 0 else 1) + word_runs word true s'
      else word_runs word false s'
  | [] => 0
  end.

(** Whether two functions agree on the [fuel] integers from [n]. *)
Fixpoint agree_from (f g : Z → Z) (fuel : nat) (n : Z) : bool :=
  match fuel with
  | O => true
  | S fuel' => (f n =? g n) && agree_from f g fuel' (n + 1)
  end.

(** The two estimators on a number of words. *)
Definition ceil_283 (wordNumber : Z) : Z :=
  Math_ceil (Number_of_Z wordNumber / (283 / 60))%float.
Definition ceil_238 (wordNumber : Z) : Z :=
  Math_ceil (Number_of_Z wordNumber / (238 / 60))%float.

(** The word counts on which the estimators are compared with the exact
    formula, by evaluation: a note of twenty thousand words is some sixty
    pages. *)
Definition checked_words : Z := 20000.

End Runs.

(* ================================================================== *)
(** ** notepad.js: the stored notepads, read, removed and replaced *)
(* ================================================================== *)

(** The message of the three methods that write the storage. *)
Definition storage_error (error : exn) : string :=
  "Local storage error." +:+ newline +:+ exn_toString error.

(** [#getAllStoredNotepads()]: the item, parsed, or [{}] when it is not set. *)
Definition getAllStoredNotepads : M Browser (gmap string NotepadRecord) :=
  let! notepadsJSON := gets localStorage in
  let notepads := default ∅ notepadsJSON in
  ret notepads.

(** [#getStoredNotepad(notepadID)]: [notepads[notepadID]], which is
    [undefined] (here [None]) for an id that is not stored. *)
Definition getStoredNotepad (notepadID : string) : M Browser (option NotepadRecord) :=
  let! notepadsJSON := gets localStorage in
  let notepads := default ∅ notepadsJSON in
  ret (notepads !! notepadID).

(** [#removeStoredNotepad(notepadID)] *)
Definition removeStoredNotepad (notepadID : string) : M Browser unit :=
  let! notepads := gets localStorage in
  let notepadsObject := default ∅ notepads in
  let notepadsObject := delete notepadID notepadsObject in
  try_catch (setItem notepadsObject)
            (λ error, alert ("Local storage error." +:+ newline +:+ exn_toString error)).

(** [#replaceStoredNotepads(notepads)] *)
Definition replaceStoredNotepads (notepads : gmap string NotepadRecord) : M Browser unit :=
  try_catch (setItem notepads)
            (λ error, alert ("Local storage error." +:+ newline +:+ exn_toString error)).

(** More inputs the properties are tried on. *)
Module MoreSamples.
Import Samples.

(** A browser whose storage refuses every write, as a full or a disabled
    storage does; it holds the notepad of [abc_record]. *)
Definition full_browser : Browser :=
  mkBrowser {[ 1%positive := sample_object ]}
            {[ 2%positive := [mkNoteRecord "note16999999999991" "New note" "milk" ""] ]}
            (Some {[ "notepad1699999999999" := abc_record ]}) (λ _, false) [] [] 0.

(** An action that fails on any data. *)
Definition always_throws (notepads : option (gmap string NotepadRecord))
    : M Browser unit :=
  throw (TypeError "Cannot read properties of null (reading 'id')").

(** The notes of [abc_notepad]. *)
Definition note_a : NoteElement :=
  mkNoteElement "a" "A" "first" "" (AttrNumber 1) (Some 1) 3.
Definition note_b : NoteElement :=
  mkNoteElement "b" "B" "second" "#fde6e6" (AttrNumber 2) (Some 2) 3.
Definition note_c : NoteElement :=
  mkNoteElement "c" "C" "third" "" (AttrNumber 3) (Some 3) 3.


End MoreSamples.

(* ================================================================== *)
(** ** notepad.js: the listener of the position input *)
(* ================================================================== *)

(** The [change] listener [#createNote] puts on the position input of a
    note.  [target] is the place, on the page, of the note whose input
    changed.  [value] is the integer [parseInt] reads in
    [event.target.value]; [None] stands for the empty value, which is
    falsy, and a value in which [parseInt] reads no integer is left out.
    The old position is read from [defaultValue]; without one, [parseInt]
    gives [NaN] and no note is selected.  The listener of a note that is
    not on the page does not run. *)
Definition moveNoteControl_change (target : nat) (value : option Z) : M Notepad unit :=
  let! note := gets (λ s, notesContainer s !! target) in
  match note, value with
  | Some input, Some newIndex =>
      match note_index_value input with
      | Some oldIndex =>
          let! found := querySelector_note_index oldIndex in
          match found with
          | Some (_, n) => moveNote (note_id n) oldIndex newIndex
          | None => throw (TypeError "Cannot read properties of null (reading 'id')")
          end
      | None => throw (TypeError "Cannot read properties of null (reading 'id')")
      end
  | _, _ => ret tt
  end.

(* ================================================================== *)
(** ** Words of the properties of the page *)
(* ================================================================== *)

(** The page and the index are in step: the note at place i of the page,
    counted from 1, is the note the index has at position i. *)
Definition in_step (s : Notepad) : Prop :=
  notesContainerIndex s = enumerate (note_data <$> notesContainer s).

(** Every note shows the position the index gives its id, in
    [data-note-index] and in its position input, whose maximum is the size
    of the index. *)
Definition positions_shown (s : Notepad) : Prop :=
  ∀ n, n ∈ notesContainer s →
    ∃ k, data_note_index n = AttrNumber k
         ∧ note_index_value n = Some k
         ∧ note_index_max n = JSMap.size (notesContainerIndex s)
         ∧ JSMap.get k (notesContainerIndex s) = Some (note_id n).

(** Every note shows its place on the page, counted from 1, and the number
    of notes as the maximum. *)
Definition shows_places (s : Notepad) : Prop :=
  ∀ (i : nat) n, notesContainer s !! i = Some n →
    data_note_index n = AttrNumber (Z.of_nat i + 1)
    ∧ note_index_value n = Some (Z.of_nat i + 1)
    ∧ note_index_max n = Z.of_nat (length (notesContainer s)).

(** A tidy page: the notes have distinct ids, none empty, the index lists
    them in the order of the page, and every note shows its place. *)
Definition tidy (s : Notepad) : Prop :=
  in_step s ∧ NoDup (ids s) ∧ Forall (λ id, id ≠ "") (ids s) ∧ shows_places s.

(** The list [l] with [x] put at place [p], counted from 0. *)
Definition put_at {A} (p : nat) (x : A) (l : list A) : list A :=
  take p l ++ x :: drop p l.

(** The palette holds no colour twice, holds the empty colour, and holds
    the colour of every note of the page. *)
Definition palette_ok (s : Notepad) : Prop :=
  NoDup (accentColors s)
  ∧ "" ∈ accentColors s
  ∧ Forall (λ n, data_accent_color n ∈ accentColors s) (notesContainer s).

(** An accent colour as [newNote] leaves it: none, or a hexadecimal
    notation in lower case. *)
Definition plain_color (c : string) : Prop :=
  c = "" ∨ (Color.is_hex_color c ∧ Color.toLowerCase c = c).



(* ================================================================== *)
(** ** notepad.js: the open notepad and the stored notepads *)
(* ================================================================== *)



Section OpenNotepad.

Variable clock : nat → Z.





End OpenNotepad.

(* ================================================================== *)
(** ** notepad.js: the controls of the page *)
(* ================================================================== *)

(** What the user does on the page.  A note is named by its place, which
    stands for the element the event comes from. *)
Inductive ui_event : Type :=
| ClickAddNote
| ConfirmDeleteNote (target : nat)
| ChangePosition (target : nat) (value : option Z)
| ClickAccentColor (target : nat)
| UserEdit (e : edit).

Section Controls.

Variable clock : nat → Z.

(** The listeners of the controls: the control ['Add note'] of the
    toolbox calls [newNote(undefined)]; the action of the dialog
    ['Delete note?'] calls [deleteNote(noteID)] if [noteID] is truthy; the
    position input has the [change] listener above; the control
    ['Accent color'] calls [#changeNoteAccentColor] with the id of the
    closest note; an edit changes the text of the page (the counters it
    refreshes are not part of the state).  An event of a note that is not
    on the page does not occur. *)
Definition ui_event_listener (event : ui_event) : M Notepad unit :=
  match event with
  | ClickAddNote => newNote clock no_properties
  | ConfirmDeleteNote target =>
      let! note := gets (λ s, notesContainer s !! target) in
      match note with
      | Some n =>
          let noteID := note_id n in
          if truthy (Some noteID) then deleteNote noteID else ret tt
      | None => ret tt
      end
  | ChangePosition target value => moveNoteControl_change target value
  | ClickAccentColor target =>
      let! note := gets (λ s, notesContainer s !! target) in
      match note with
      | Some n => changeNoteAccentColor (note_id n)
      | None => ret tt
      end
  | UserEdit e => modify (apply_edit e)
  end.

(** The outcome and the page after every event of a sequence, in order. *)
Fixpoint ui_events_run (events : list ui_event) (s : Notepad)
    : list (outcome unit * Notepad) :=
  match events with
  | [] => []
  | event :: events' =>
      ui_event_listener event s
      :: ui_events_run events' (state_after (ui_event_listener event) s)
  end.

(** The events the listeners are written for: the id generated for a new
    note is not the id of a note of the page, and a position that is typed
    is at least 1 and, once a position beyond the last is taken for the
    last, is not the position the note has. *)
Definition ui_event_expected (s : Notepad) (event : ui_event) : Prop :=
  match event with
  | ClickAddNote => newNote_id clock no_properties s ∉ ids s
  | ChangePosition target (Some value) =>
      (target < length (notesContainer s))%nat →
      1 ≤ value
      ∧ Z.min value (Z.of_nat (length (notesContainer s))) ≠ Z.of_nat target + 1
  | _ => True
  end.

Fixpoint ui_events_expected (s : Notepad) (events : list ui_event) : Prop :=
  match events with
  | [] => True
  | event :: events' =>
      ui_event_expected s event
      ∧ ui_events_expected (state_after (ui_event_listener event) s) events'
  end.

End Controls.

(** A session the properties are tried on: a note is added, the first
    note is moved last, the second note is deleted, a colour is changed and
    a title is typed. *)
Definition sample_session : list ui_event :=
  [ClickAddNote; ChangePosition 0 (Some 9); ConfirmDeleteNote 1;
   ClickAccentColor 0; UserEdit (EditNoteTitle 1 "Groceries")].

(* ================================================================== *)
(** * Part II. Properties *)
(* ================================================================== *)

(** ** The state monad *)

Ltac unfold_monad :=
  unfold bind, ret, throw, gets, modify, try_catch, state_after, result_of in *.

Section MonadFacts.
Context {S : Type}.

Lemma state_after_bind {A B} (m : M S A) (k : A → M S B) (s : S) :
  state_after (bind m k) s =
  match m s with
  | (Done a, s') => state_after (k a) s'
  | (Throws _, s') => s'
  end.
Proof. unfold state_after, bind. by destruct (m s) as [[a|e] s']. Qed.

(** A loop keeps what every turn keeps, whether or not a turn throws. *)
Lemma for_each_invariant {A} (P : S → Prop) (l : list A) (body : A → M S unit) :
  (∀ x s, P s → P (state_after (body x) s)) →
  ∀ s, P s → P (state_after (for_each l body) s).
Proof.
  intros Hbody. induction l as [|x l IH]; intros s Hs; [done|].
  simpl. rewrite state_after_bind. specialize (Hbody x s Hs).
  unfold state_after in Hbody. destruct (body x s) as [[[]|e] s']; simpl in *; auto.
Qed.

(** A loop whose turns do not throw, with what holds after the turns done
    so far. *)
Lemma for_each_progress {A} (P : list A → S → Prop) (l : list A) (body : A → M S unit) :
  (∀ done x rest s, l = done ++ x :: rest → P done s →
     ∃ s', body x s = (Done tt, s') ∧ P (done ++ [x]) s') →
  ∀ s, P [] s → ∃ s', for_each l body s = (Done tt, s') ∧ P l s'.
Proof.
  intros Hbody.
  assert (H : ∀ rest done s, l = done ++ rest → P done s →
            ∃ s', for_each rest body s = (Done tt, s') ∧ P l s').
  { induction rest as [|x rest IH]; intros done s Hl Hs.
    - rewrite app_nil_r in Hl. subst. by exists s.
    - destruct (Hbody done x rest s Hl Hs) as (s1 & E1 & H1).
      destruct (IH (done ++ [x]) s1) as (s2 & E2 & H2); [by rewrite <- app_assoc | done |].
      exists s2. split; [|done]. simpl. unfold bind. by rewrite E1. }
  intros s Hs. by apply (H l [] s).
Qed.

(** A loop of assignments is a fold. *)
Lemma for_each_modify {A} (f : A → S → S) (l : list A) (body : A → M S unit) :
  (∀ x s, body x s = (Done tt, f x s)) →
  ∀ s, for_each l body s = (Done tt, fold_left (λ s x, f x s) l s).
Proof.
  intros Hbody. induction l as [|x l IH]; intros s; [done|].
  simpl. unfold bind. by rewrite Hbody, IH.
Qed.
End MonadFacts.

(** ** countWords *)

Module WordsFacts.
Import Utilities Samples.
Implicit Types (s rest : list codepoint) (k : list codepoint → option (list codepoint)).

Lemma re_star_ext cls1 cls2 s k1 k2 :
  (∀ c, c ∈ s → cls1 c = cls2 c) →
  (∀ s', s' `suffix_of` s → k1 s' = k2 s') →
  re_star cls1 s k1 = re_star cls2 s k2.
Proof.
  induction s as [|c s IH]; intros Hc Hk; simpl.
  - apply Hk. done.
  - rewrite (Hc c) by set_solver.
    rewrite (Hk (c :: s)) by done.
    rewrite IH; [done | set_solver |].
    intros s' Hs'. apply Hk. by apply suffix_cons_r.
Qed.

Lemma re_star_suffix cls s k rest :
  (∀ s' r, s' `suffix_of` s → k s' = Some r → r `suffix_of` s') →
  re_star cls s k = Some rest → rest `suffix_of` s.
Proof.
  induction s as [|c s IH]; intros Hk; simpl.
  - intros H. by apply (Hk []).
  - assert (Hs : ∀ r, k (c :: s) = Some r → r `suffix_of` c :: s)
      by (intros r; by apply Hk).
    destruct (cls c); [|by auto].
    destruct (re_star cls s k) as [r|] eqn:E; [|by auto].
    intros [= ->]. apply suffix_cons_r, IH; [|done].
    intros s' r' Hs' Hr'. apply Hk; [by apply suffix_cons_r | done].
Qed.

(** The pattern reads the table of pictographs at the code points of its
    input only. *)
Lemma regex_at_ext EP1 EP2 s :
  (∀ c, c ∈ s → word_class EP1 c = word_class EP2 c) →
  regex_at EP1 s = regex_at EP2 s.
Proof.
  intros Hc. unfold regex_at. apply re_star_ext; [done|].
  intros s1 Hs1. unfold re_plus. destruct s1 as [|c s1]; [done|].
  assert (Hin : ∀ x, x ∈ c :: s1 → x ∈ s).
  { intros x Hx. destruct Hs1 as [p ->]. rewrite elem_of_app. by right. }
  assert (Hw : ∀ x, x ∈ c :: s1 → word_class EP1 x = word_class EP2 x).
  { intros x Hx. by apply Hc, Hin. }
  rewrite (Hw c) by set_solver. destruct (word_class EP2 c); [|done].
  apply re_star_ext; [|done]. intros x Hx. apply Hw. set_solver.
Qed.

Lemma regex_at_suffix EP s rest : regex_at EP s = Some rest → rest `suffix_of` s.
Proof.
  unfold regex_at. apply re_star_suffix.
  intros s1 r1 _. unfold re_plus. destruct s1 as [|c s1]; [done|].
  destruct (word_class EP c); [|done].
  intros H. apply suffix_cons_r. revert H. apply re_star_suffix.
  intros s2 r2 _. apply re_star_suffix. by intros s3 r3 _ [= ->].
Qed.

Lemma regex_exec_ext EP1 EP2 s :
  (∀ c, c ∈ s → word_class EP1 c = word_class EP2 c) →
  regex_exec EP1 s = regex_exec EP2 s.
Proof.
  induction s as [|c s IH]; intros Hc.
  - done.
  - simpl. rewrite (regex_at_ext EP1 EP2 (c :: s) Hc).
    destruct (regex_at EP2 (c :: s)); [done|]. apply IH. set_solver.
Qed.

Lemma regex_exec_suffix EP s m rest :
  regex_exec EP s = Some (m, rest) → rest `suffix_of` s.
Proof.
  induction s as [|c s IH]; simpl.
  - done.
  - destruct (regex_at EP (c :: s)) eqn:E.
    + intros [= _ <-]. by apply regex_at_suffix in E.
    + intros H. by apply suffix_cons_r, IH.
Qed.

Lemma match_loop_ext EP1 EP2 fuel s :
  (∀ c, c ∈ s → word_class EP1 c = word_class EP2 c) →
  match_loop EP1 fuel s = match_loop EP2 fuel s.
Proof.
  revert s. induction fuel as [|fuel IH]; intros s Hc; [done|].
  simpl. rewrite (regex_exec_ext EP1 EP2 s Hc).
  destruct (regex_exec EP2 s) as [[m rest]|] eqn:E; [|done].
  f_equal. apply IH. intros c Hin. apply Hc.
  apply regex_exec_suffix in E. destruct E as [p ->].
  rewrite elem_of_app. by right.
Qed.

Lemma countWords_ext EP1 EP2 s :
  (∀ c, c ∈ s → word_class EP1 c = word_class EP2 c) →
  countWords EP1 s = countWords EP2 s.
Proof.
  intros Hc. unfold countWords, String_match.
  by rewrite (match_loop_ext EP1 EP2 _ s Hc).
Qed.

(** C8. [countWords("Hello world 🎉")] is 3, whatever the rest of the table
    of pictographs, as long as the space is not a pictograph and the party
    popper is one: the matches are ["Hello "], ["world "] and the emoji. *)
Theorem countWords_hello_world (Extended_Pictographic : codepoint → bool) :
  Extended_Pictographic 0x20 = false →
  Extended_Pictographic 0x1F389 = true →
  countWords Extended_Pictographic hello_world = 3
  ∧ String_match Extended_Pictographic hello_world
    = Some [[72; 101; 108; 108; 111; 32]; [119; 111; 114; 108; 100; 32]; [0x1F389]].
Proof.
  intros H1 H2.
  assert (Hw : ∀ c, c ∈ hello_world →
            word_class Extended_Pictographic c = word_class sample_pictographic c).
  { intros c Hc. unfold hello_world in Hc. set_unfold.
    destruct_or!; subst c; unfold word_class; rewrite ?H1, ?H2; reflexivity. }
  split.
  - rewrite (countWords_ext _ sample_pictographic _ Hw). by vm_compute.
  - unfold String_match.
    rewrite (match_loop_ext _ sample_pictographic _ _ Hw). by vm_compute.
Qed.

Lemma countWords_hello_world_witness :
  countWords sample_pictographic hello_world = 3
  ∧ String_match sample_pictographic hello_world
    = Some [[72; 101; 108; 108; 111; 32]; [119; 111; 114; 108; 100; 32]; [0x1F389]].
Proof. apply (countWords_hello_world sample_pictographic); reflexivity. Defined.

(** ** getReadTime *)

(** C7. The two estimators disagree on every text of four words: the one of
    [src/js/utilities.js] divides by 283/60 and answers 1 second, the later
    one divides by 238/60 and answers 2 seconds, shown as ["2s"]. *)
Theorem getReadTime_four_words (Extended_Pictographic : codepoint → bool)
    (s : list codepoint) :
  countWords Extended_Pictographic s = 4 →
  getReadTime Extended_Pictographic s = 1
  ∧ getReadTime_seconds' Extended_Pictographic s = 2
  ∧ getReadTime' Extended_Pictographic s = "2s".
Proof.
  intros H. unfold getReadTime', getReadTime_seconds', getReadTime.
  rewrite H. by vm_compute.
Qed.

Lemma getReadTime_four_words_witness :
  getReadTime sample_pictographic four_words = 1
  ∧ getReadTime_seconds' sample_pictographic four_words = 2
  ∧ getReadTime' sample_pictographic four_words = "2s".
Proof. apply (getReadTime_four_words sample_pictographic four_words). reflexivity. Defined.

(** The formula of the specification tells the two rates apart in the same
    way. *)
Lemma estimateReadSeconds_four_words :
  estimateReadSeconds 283 4 = 1 ∧ estimateReadSeconds 238 4 = 2.
Proof. by vm_compute. Qed.

End WordsFacts.

(** ** dataFallbackMode *)

Module FallbackFacts.
Import Fallback Samples.



End FallbackFacts.

(** ** The accent colour *)

Module ColorFacts.
Import Stdlib.Strings.Ascii Color.

Lemma at_end_true r : at_end r = true ↔ r = Some EmptyString.
Proof. destruct r as [[|]|]; simpl; split; congruence. Qed.

Lemma hex_digits_empty n s :
  hex_digits n s = Some EmptyString ↔
  String.length s = n ∧ Forall (λ c, hex_digit c = true) (String.list_ascii_of_string s).
Proof.
  revert s. induction n as [|n IH]; intros s; simpl.
  - destruct s; simpl; split.
    + done.
    + done.
    + done.
    + intros [? _]. done.
  - destruct s as [|c s]; simpl; [split; [done | by intros [? _]]|].
    destruct (hex_digit c) eqn:Hc.
    + rewrite IH. rewrite Forall_cons. naive_solver.
    + split; [done|]. intros [_ H]. apply Forall_cons in H as [H _]. congruence.
Qed.

(** The test of the pattern is the notation of the words. *)
Lemma hexColorRegex_test_spec s : hexColorRegex_test s = true ↔ is_hex_color s.
Proof.
  unfold hexColorRegex_test, is_hex_color. destruct s as [|c s].
  - split; [done | by intros (? & ? & _)].
  - destruct (Ascii.eqb_spec c "#") as [->|Hne].
    + rewrite orb_true_iff, !at_end_true, !hex_digits_empty. split.
      * intros [[? ?]|[? ?]]; exists s; naive_solver.
      * intros (d & [= <-] & Hl & Hd). naive_solver.
    + split; [done|]. intros (d & [= ? _] & _). done.
Qed.



End ColorFacts.

(** ** The index as a [Map] *)

Module JSMapFacts.
Import JSMap.
Implicit Types (m : JSMap.t) (k : Z) (v : jsval).

Lemma get_set_eq k v m : get k (set k v m) = v.
Proof.
  induction m as [|[k' v'] m IH]; simpl.
  - by rewrite Z.eqb_refl.
  - destruct (k' =? k) eqn:E; simpl; rewrite ?Z.eqb_refl, ?E; done.
Qed.

Lemma get_set_ne k k' v m : k ≠ k' → get k' (set k v m) = get k' m.
Proof.
  intros Hne. induction m as [|[k0 v0] m IH]; simpl.
  - by destruct (Z.eqb_spec k k').
  - destruct (Z.eqb_spec k0 k) as [->|]; simpl.
    + by destruct (Z.eqb_spec k k').
    + by rewrite IH.
Qed.

Lemma get_set k k' v m : get k' (set k v m) = if decide (k = k') then v else get k' m.
Proof. case_decide; [subst; apply get_set_eq | by apply get_set_ne]. Qed.

Lemma keys_set_in k v m : k ∈ keys m → keys (set k v m) = keys m.
Proof.
  unfold keys. induction m as [|[k' v'] m IH]; simpl; [by intros ?%elem_of_nil|].
  intros Hin. destruct (Z.eqb_spec k' k) as [->|Hne]; simpl; [done|].
  f_equal. apply IH. set_solver.
Qed.

Lemma set_new k v m : k ∉ keys m → set k v m = m ++ [(k, v)].
Proof.
  unfold keys. induction m as [|[k' v'] m IH]; simpl; [done|].
  intros Hin. destruct (Z.eqb_spec k' k) as [->|Hne]; [set_solver|].
  f_equal. apply IH. set_solver.
Qed.

Lemma get_app_l k m1 m2 : k ∈ keys m1 → get k (m1 ++ m2) = get k m1.
Proof.
  unfold keys. induction m1 as [|[k' v'] m1 IH]; simpl; [by intros ?%elem_of_nil|].
  intros Hin. destruct (Z.eqb_spec k' k) as [->|Hne]; [done|].
  apply IH. set_solver.
Qed.

Lemma get_app_r k m1 m2 : k ∉ keys m1 → get k (m1 ++ m2) = get k m2.
Proof.
  unfold keys. induction m1 as [|[k' v'] m1 IH]; simpl; [done|].
  intros Hin. destruct (Z.eqb_spec k' k) as [->|Hne]; [set_solver|].
  apply IH. set_solver.
Qed.

Lemma get_not_in k m : k ∉ keys m → get k m = None.
Proof.
  unfold keys. induction m as [|[k' v'] m IH]; simpl; [done|].
  intros Hin. destruct (Z.eqb_spec k' k) as [->|Hne]; [set_solver|].
  apply IH. set_solver.
Qed.

Lemma get_Some_in k m id : get k m = Some id → k ∈ keys m.
Proof.
  intros H. destruct (decide (k ∈ keys m)) as [|Hn]; [done|].
  by rewrite (get_not_in _ _ Hn) in H.
Qed.

Lemma size_keys m : size m = Z.of_nat (length (keys m)).
Proof. unfold size, keys. by rewrite length_fmap. Qed.

End JSMapFacts.

(** ** The notes of the page: what [#indexNotes] leaves alone *)

Section NotesFrame.
Implicit Types (s : Notepad) (l : list NoteElement).

Lemma same_notes_refl s : same_notes s s.
Proof. by repeat split. Qed.

Lemma same_notes_trans s1 s2 s3 :
  same_notes s1 s2 → same_notes s2 s3 → same_notes s1 s3.
Proof. unfold same_notes. intros. destruct_and!. repeat split; congruence. Qed.

Lemma fmap_alter_same {A B} (f : A → B) (g : A → A) (i : nat) (l : list A) :
  (∀ x, f (g x) = f x) → f <$> alter g i l = f <$> l.
Proof.
  intros H. rewrite (list_fmap_alter f g id).
  - apply list_eq. intros j. rewrite list_lookup_alter.
    case_decide; [subst; by destruct (_ !! _) | done].
  - apply Forall_forall. intros x _. apply H.
Qed.

Lemma update_child_same_notes i f s :
  (∀ n, note_data (f n) = note_data n) →
  same_notes s (state_after (update_child i f) s).
Proof.
  intros H. unfold update_child. unfold_monad. simpl.
  repeat split. by apply fmap_alter_same.
Qed.

Lemma indexNotes_turn_same_notes index s :
  same_notes s (state_after (indexNotes_turn index) s).
Proof.
  unfold indexNotes_turn, index_get, getElementById, index_size, update_child.
  unfold_monad. simpl.
  destruct (list_find _ _) as [[i n]|]; simpl; [|apply same_notes_refl].
  repeat split. simpl. by rewrite !fmap_alter_same.
Qed.

(** [#indexNotes] changes nothing but the positions written on the notes,
    also when it throws. *)
Lemma indexNotes_same_notes s : same_notes s (state_after indexNotes s).
Proof.
  unfold indexNotes. rewrite state_after_bind. unfold gets.
  apply (for_each_invariant (same_notes s)); [|apply same_notes_refl].
  intros index s' Hs'. eapply same_notes_trans; [done|].
  apply indexNotes_turn_same_notes.
Qed.

End NotesFrame.

(** ** newNote *)

Section NewNoteFacts.
Variable clock : nat → Z.

Lemma newNote_unfold noteProperties s :
  newNote clock noteProperties s = indexNotes (newNote_before_index clock noteProperties s).
Proof.
  unfold newNote, newNote_before_index, newNote_element, newNote_id.
  unfold index_size, index_set, append_child, Date_now. unfold_monad.
  destruct (truthy (prop_id noteProperties)); simpl;
    destruct (bool_decide _); reflexivity.
Qed.


End NewNoteFacts.

(** ** #duplicateNotepad *)

Section DuplicateFacts.
Variable clock : nat → Z.

Lemma string_app_nil_r (x : string) : x +:+ "" = x.
Proof.
  induction x as [|c x IH]; [done|].
  change (String c (x +:+ "") = String c x). by rewrite IH.
Qed.

Lemma generateID_notepad_inj (t t' : Z) :
  Utilities.generateID Defaults.tag_notepad "" t
  = Utilities.generateID Defaults.tag_notepad "" t' → t = t'.
Proof.
  unfold Utilities.generateID, Defaults.tag_notepad.
  intros H. apply (inj (String.append _)) in H.
  rewrite !string_app_nil_r in H. by apply (inj pretty) in H.
Qed.

(** C9. [#duplicateNotepad] returns a new object: its id is generated from
    the first reading of the clock, and differs from the id of the source
    when that was generated from another reading; its title is the title of
    the source followed by [" (Copy)"]; its two timestamps are the second
    reading of the clock; it shares the notes of the source.  The source
    object, every other object and every array are as before the call. *)
Theorem duplicateNotepad_fresh_copy (notepad : loc) (r : NotepadObject) (b : Browser) :
  objects b !! notepad = Some r →
  ∃ (duplicatedNotepad : loc) (b' : Browser),
    duplicateNotepad clock notepad b = (Done duplicatedNotepad, b')
    ∧ duplicatedNotepad ≠ notepad
    ∧ objects b !! duplicatedNotepad = None
    ∧ objects b' !! duplicatedNotepad
      = Some (mkNotepadObject
                (obj_title r +:+ " (Copy)")
                (Utilities.generateID Defaults.tag_notepad "" (clock (b_tick b)))
                (clock (S (b_tick b))) (clock (S (b_tick b))) (obj_notes r))
    ∧ (∀ t, obj_id r = Utilities.generateID Defaults.tag_notepad "" t →
            t ≠ clock (b_tick b) →
            Utilities.generateID Defaults.tag_notepad "" (clock (b_tick b)) ≠ obj_id r)
    ∧ objects b' !! notepad = Some r
    ∧ (∀ l, l ≠ duplicatedNotepad → objects b' !! l = objects b !! l)
    ∧ arrays b' = arrays b.
Proof.
  intros Hr.
  set (l := fresh (dom (objects b))).
  assert (Hl : objects b !! l = None).
  { apply not_elem_of_dom. apply is_fresh. }
  assert (Hne : l ≠ notepad) by (intros ->; congruence).
  unfold duplicateNotepad, Object_assign_empty, storeNotepad, deref, update_object,
    Date_now_b, setItem, alert.
  unfold_monad. simpl. rewrite Hr. simpl. fold l.
  rewrite !lookup_alter_eq, lookup_insert_eq. simpl.
  match goal with
  | |- context [quota b ?m] => destruct (quota b m)
  end; simpl.
  all: eexists l, _; split; [reflexivity|]; simpl.
  all: repeat split; try done.
  all: try (rewrite !lookup_alter_eq, lookup_insert_eq; done).
  all: try (intros t Ht Hne' E; rewrite Ht in E;
            by apply generateID_notepad_inj in E).
  all: try (rewrite !lookup_alter_ne, lookup_insert_ne by done; done).
  all: intros l' Hl'; by rewrite !lookup_alter_ne, lookup_insert_ne by done.
Qed.

End DuplicateFacts.

Module DuplicateSample.
Import Samples.

Lemma duplicateNotepad_fresh_copy_witness :
  ∃ (duplicatedNotepad : loc) (b' : Browser),
    duplicateNotepad sample_clock 1%positive sample_browser = (Done duplicatedNotepad, b')
    ∧ duplicatedNotepad ≠ 1%positive
    ∧ objects sample_browser !! duplicatedNotepad = None
    ∧ objects b' !! duplicatedNotepad
      = Some (mkNotepadObject
                (obj_title sample_object +:+ " (Copy)")
                (Utilities.generateID Defaults.tag_notepad ""
                   (sample_clock (b_tick sample_browser)))
                (sample_clock (S (b_tick sample_browser)))
                (sample_clock (S (b_tick sample_browser)))
                (obj_notes sample_object))
    ∧ (∀ t, obj_id sample_object = Utilities.generateID Defaults.tag_notepad "" t →
            t ≠ sample_clock (b_tick sample_browser) →
            Utilities.generateID Defaults.tag_notepad ""
              (sample_clock (b_tick sample_browser)) ≠ obj_id sample_object)
    ∧ objects b' !! 1%positive = Some sample_object
    ∧ (∀ l, l ≠ duplicatedNotepad → objects b' !! l = objects sample_browser !! l)
    ∧ arrays b' = arrays sample_browser.
Proof.
  apply (duplicateNotepad_fresh_copy sample_clock 1%positive sample_object sample_browser).
  reflexivity.
Defined.

End DuplicateSample.

(** ** deleteNote and moveNote outside what they expect *)

Module OrderingSlips.
Import Samples.

(** C3. [deleteNote] of an id that no note has is not a silent no-op: it
    throws a [TypeError], on [note.remove()] for the [null] that
    [getElementById] returned.  Nothing was changed before: the notepad is
    the one before the call. *)
Theorem deleteNote_absent_throws (noteID : string) (s : Notepad) :
  noteID ∉ ids s →
  deleteNote noteID s
  = (Throws (TypeError "Cannot read properties of null (reading 'remove')"), s).
Proof.
  intros Hn. unfold deleteNote, getElementById. unfold_monad.
  destruct (list_find _ _) as [[i n]|] eqn:E; [|done].
  apply list_find_Some in E as (Hi & Hid & _).
  destruct Hn. unfold ids. rewrite <- Hid.
  apply list_elem_of_fmap. exists n. split; [done|].
  by eapply list_elem_of_lookup_2.
Qed.

Lemma deleteNote_absent_throws_witness :
  deleteNote "z" abc_notepad
  = (Throws (TypeError "Cannot read properties of null (reading 'remove')"), abc_notepad).
Proof.
  apply (deleteNote_absent_throws "z" abc_notepad).
  vm_compute. intros H. repeat (apply elem_of_cons in H as [H|H]; [done|]).
  by apply elem_of_nil in H.
Defined.

(** C2. A position below 1 is not clamped: on the notes [a], [b], [c],
    [moveNote("b", 2, 0)] adds the key 0 to the index, for the note that is
    moved, leaves position 1 without an id, and throws in [#indexNotes]. *)
Theorem moveNote_below_one_not_clamped :
  result_of (moveNote "b" 2 0) abc_notepad
  = Throws (TypeError "Cannot read properties of null (reading 'dataset')")
  ∧ notesContainerIndex (state_after (moveNote "b" 2 0) abc_notepad)
    = [(1, None); (2, Some "a"); (3, Some "c"); (0, Some "b")]
  ∧ ids (state_after (moveNote "b" 2 0) abc_notepad) = ["a"; "c"; "b"].
Proof. by vm_compute. Qed.

(** C4. Moving a note to the position it has leaves the index as it is, but
    not the page: on the notes [a], [b], [c], [moveNote("a", 1, 1)] puts the
    note [a] after the two others, and a record then reads [b], [c], [a]. *)
Theorem moveNote_same_position_reorders :
  ids abc_notepad = ["a"; "b"; "c"]
  ∧ result_of (moveNote "a" 1 1) abc_notepad = Done tt
  ∧ notesContainerIndex (state_after (moveNote "a" 1 1) abc_notepad)
    = notesContainerIndex abc_notepad
  ∧ ids (state_after (moveNote "a" 1 1) abc_notepad) = ["b"; "c"; "a"]
  ∧ rec_id <$> np_notes
      match result_of (retrieveNotepad sample_clock)
              (state_after (moveNote "a" 1 1) abc_notepad) with
      | Done r => r
      | Throws _ => abc_record
      end = ["b"; "c"; "a"].
Proof. by vm_compute. Qed.

End OrderingSlips.

(** ** #indexNotes *)

Section IndexNotesFacts.
Implicit Types (s : Notepad) (k : Z) (id : string).

Lemma same_notes_ids s s' : same_notes s s' → ids s' = ids s.
Proof.
  intros [H _]. unfold ids.
  change note_id with (rec_id ∘ note_data). by rewrite !list_fmap_compose, H.
Qed.


Lemma same_notes_index s s' :
  same_notes s s' → notesContainerIndex s' = notesContainerIndex s.
Proof. by intros (_ & H & _). Qed.

Lemma elem_of_ids id s :
  id ∈ ids s ↔ ∃ n, n ∈ notesContainer s ∧ note_id n = id.
Proof. unfold ids. rewrite list_elem_of_fmap. naive_solver. Qed.

(** A note with a given id is found by [getElementById]. *)
Lemma find_note id s :
  id ∈ ids s →
  ∃ i n, list_find (λ n, note_id n = id) (notesContainer s) = Some (i, n)
         ∧ notesContainer s !! i = Some n ∧ note_id n = id.
Proof.
  intros (n & Hn & Hid)%elem_of_ids.
  destruct (list_find_elem_of (λ n, note_id n = id) _ n Hn Hid) as [[i n'] E].
  exists i, n'. split; [done|]. by apply list_find_Some in E as (? & ? & _).
Qed.

(** A turn for a key whose id is on the page writes the position on the
    first note of this id. *)
Lemma indexNotes_turn_found k id i n s :
  JSMap.get k (notesContainerIndex s) = Some id →
  list_find (λ n, note_id n = id) (notesContainer s) = Some (i, n) →
  indexNotes_turn k s
  = (Done tt,
     set_notesContainer
       (alter (write_position k (JSMap.size (notesContainerIndex s))) i (notesContainer s)) s).
Proof.
  intros Hk Hf. unfold indexNotes_turn, index_get, getElementById, index_size, update_child.
  unfold_monad. simpl. rewrite Hk. simpl. rewrite Hf. simpl.
  unfold set_notesContainer. simpl. by rewrite !list_alter_alter_eq.
Qed.

Lemma write_position_data k size n : note_data (write_position k size n) = note_data n.
Proof. done. Qed.



End IndexNotesFacts.

(** ** newNote keeps the bijection *)

Section OrderingNew.
Variable clock : nat → Z.
Implicit Types (s : Notepad) (k : Z) (id : string).



Lemma truthy_nonempty v : truthy v = true → to_id v ≠ "".
Proof.
  destruct v as [x|]; simpl; [|done]. intros H ->. done.
Qed.

Lemma newNote_id_nonempty noteProperties s : newNote_id clock noteProperties s ≠ "".
Proof.
  unfold newNote_id. destruct (truthy _) eqn:E; [by apply truthy_nonempty|].
  unfold Utilities.generateID, Defaults.tag_note. done.
Qed.


End OrderingNew.

(** ** deleteNote keeps the bijection *)

Section OrderingDelete.
Implicit Types (s : Notepad) (k p : Z) (id : string) (m orig : JSMap.t).

Lemma keys_set_new k v m : k ∉ JSMap.keys m → JSMap.keys (JSMap.set k v m) = JSMap.keys m ++ [k].
Proof.
  intros H. rewrite (JSMapFacts.set_new _ _ _ H). unfold JSMap.keys. by rewrite fmap_app.
Qed.

(** The index rebuilt by the first [j] turns of the loop of [deleteNote],
    for a note at position [p]. *)
Lemma rebuild_prefix orig p n :
  1 ≤ p ≤ n →
  (∀ k, 1 ≤ k ≤ n → truthy (JSMap.get k orig) = true) →
  ∀ j : nat, Z.of_nat j ≤ n →
    let acc := fold_left (rebuild_step orig (AttrNumber p)) (seqZ 1 (Z.of_nat j)) JSMap.empty in
    JSMap.keys acc = seqZ 1 (if Z.of_nat j <? p then Z.of_nat j else Z.of_nat j - 1)
    ∧ ∀ k, JSMap.get k acc
           = if decide (1 ≤ k < p ∧ k ≤ Z.of_nat j) then JSMap.get k orig
             else if decide (p ≤ k ∧ k + 1 ≤ Z.of_nat j) then JSMap.get (k + 1) orig
             else None.
Proof.
  intros Hp Htruthy. induction j as [|j IH]; intros Hj.
  - simpl. split.
    + destruct (_ <? _); rewrite seqZ_nil by lia; done.
    + intros k. repeat case_decide; (done || lia).
  - rewrite seqZ_S, fold_left_app. simpl.
    destruct IH as [IHk IHg]; [lia|].
    set (acc := fold_left _ _ _) in *.
    replace (1 + Z.of_nat j) with (Z.of_nat (S j)) by lia.
    unfold rebuild_step. rewrite Htruthy by lia. simpl.
    destruct (Z.ltb_spec (Z.of_nat (S j)) p) as [Hlt|Hge].
    + destruct (Z.ltb_spec (Z.of_nat j) p); [|lia]. split.
      * rewrite keys_set_new, IHk; [by rewrite seqZ_S; do 2 f_equal; lia|].
        rewrite IHk, elem_of_seqZ. lia.
      * intros k. rewrite JSMapFacts.get_set, IHg.
        repeat case_decide; (done || lia || (subst; done)).
    + destruct (Z.ltb_spec p (Z.of_nat (S j))) as [Hgt|Hle].
      * destruct (Z.ltb_spec (Z.of_nat j) p); [lia|]. split.
        -- rewrite keys_set_new, IHk.
           ++ replace (Z.of_nat (S j) - 1) with (Z.of_nat (S (j - 1))) by lia.
              replace (Z.of_nat j - 1) with (Z.of_nat (j - 1)) by lia.
              rewrite seqZ_S. do 2 f_equal. lia.
           ++ rewrite IHk, elem_of_seqZ. lia.
        -- intros k. rewrite JSMapFacts.get_set, IHg.
           repeat case_decide; try (done || lia).
           subst k. f_equal. lia.
      * destruct (Z.ltb_spec (Z.of_nat j) p); [|lia]. split.
        -- rewrite IHk. f_equal. lia.
        -- intros k. rewrite IHg. repeat case_decide; (done || lia).
Qed.



End OrderingDelete.

(** ** moveNote keeps the bijection *)

Local Ltac arith := first [done | lia | exfalso; lia].

Section OrderingMove.
Implicit Types (s : Notepad) (k old new n : Z) (id : string) (m : JSMap.t).

Lemma array_get_before_last (cached : list jsval) (c y : jsval) :
  last cached = Some c →
  array_get (cached ++ [y]) (Z.of_nat (length (cached ++ [y])) - 2) = c.
Proof.
  intros Hl. unfold array_get, jsval in *. rewrite length_app.
  change (length [y]) with 1%nat.
  assert (0 < length cached)%nat.
  { destruct cached; [done | simpl; lia]. }
  destruct (Z.ltb_spec (Z.of_nat (length cached + 1) - 2) 0); [arith|].
  replace (Z.to_nat (Z.of_nat (length cached + 1) - 2)) with (length cached - 1)%nat by lia.
  rewrite lookup_app_l by lia.
  rewrite last_lookup, <- Nat.sub_1_r in Hl. by rewrite Hl.
Qed.

(** The first loop of [moveNote] after its turns for the keys 1..j. *)
Lemma shift_up_prefix old new n m (cached : list jsval) (next : jsval) :
  JSMap.keys m = seqZ 1 n →
  1 ≤ new →
  last cached = Some next →
  ∀ j : nat, Z.of_nat j ≤ n →
    let st := fold_left (shift_up_step old new) (seqZ 1 (Z.of_nat j)) (m, cached) in
    JSMap.keys st.1 = JSMap.keys m
    ∧ (∀ k, JSMap.get k st.1
            = if decide (new + 1 < k ≤ old ∧ k ≤ Z.of_nat j)
              then (if decide (k = new + 2) then next else JSMap.get (k - 1) m)
              else JSMap.get k m)
    ∧ last st.2
      = Some (if decide (new + 1 < Z.min (Z.of_nat j) old)
              then JSMap.get (Z.min (Z.of_nat j) old) m else next).
Proof.
  intros Hkeys Hnew Hlast. induction j as [|j IH]; intros Hj.
  - simpl. split; [done|]. split.
    + intros k. repeat case_decide; arith.
    + rewrite Hlast. f_equal. case_decide; [|done].
      exfalso. lia.
  - rewrite seqZ_S, fold_left_app. simpl.
    destruct IH as (IHk & IHg & IHl); [lia|].
    destruct (fold_left _ _ _) as [mj cj]. simpl in *.
    replace (1 + Z.of_nat j) with (Z.of_nat (S j)) by lia.
    set (x := Z.of_nat (S j)) in *.
    destruct (Z.ltb_spec (new + 1) x) as [H1|H1]; simpl;
      [destruct (Z.leb_spec x old) as [H2|H2]|]; simpl.
    + rewrite (array_get_before_last cj _ _ IHl).
      split; [|split].
      * rewrite JSMapFacts.keys_set_in; [done|].
        rewrite IHk, Hkeys, elem_of_seqZ. lia.
      * intros k. rewrite JSMapFacts.get_set, IHg.
        repeat case_decide; try arith.
        all: subst k; f_equal; lia.
      * rewrite last_snoc, IHg. f_equal.
        repeat case_decide; try arith.
        all: f_equal; lia.
    + split; [done|]. split.
      * intros k. rewrite IHg. repeat case_decide; arith.
      * rewrite IHl. f_equal. repeat case_decide; try arith.
        all: f_equal; lia.
    + split; [done|]. split.
      * intros k. rewrite IHg. repeat case_decide; arith.
      * rewrite IHl. f_equal. repeat case_decide; try arith.
        all: f_equal; lia.
Qed.

(** The second loop of [moveNote] after its turns for the keys 1..j. *)
Lemma shift_down_prefix old new n m (moved : jsval) :
  JSMap.keys m = seqZ 1 n →
  ∀ j : nat, Z.of_nat j ≤ n →
    let mj := fold_left (shift_down_step old new moved) (seqZ 1 (Z.of_nat j)) m in
    JSMap.keys mj = JSMap.keys m
    ∧ ∀ k, JSMap.get k mj
           = if decide (1 ≤ k ≤ Z.of_nat j)
             then (if decide (old ≤ k < new) then JSMap.get (k + 1) m
                   else if decide (k = new) then moved else JSMap.get k m)
             else JSMap.get k m.
Proof.
  intros Hkeys. induction j as [|j IH]; intros Hj.
  - simpl. split; [done|]. intros k. repeat case_decide; arith.
  - rewrite seqZ_S, fold_left_app. simpl.
    destruct IH as (IHk & IHg); [lia|].
    set (mj := fold_left _ _ _) in *.
    replace (1 + Z.of_nat j) with (Z.of_nat (S j)) by lia.
    set (x := Z.of_nat (S j)) in *.
    assert (Hx : x ∈ JSMap.keys mj).
    { rewrite IHk, Hkeys, elem_of_seqZ. lia. }
    unfold shift_down_step.
    destruct (Z.leb_spec old x) as [H1|H1]; cbn [andb];
      [destruct (Z.ltb_spec x new) as [H2|H2]|]; cbn [andb].
    + split; [by rewrite JSMapFacts.keys_set_in|].
      intros k. rewrite JSMapFacts.get_set, !IHg.
      repeat case_decide; try arith.
      all: by subst k.
    + destruct (Z.eqb_spec x new) as [H3|H3].
      * split; [by rewrite JSMapFacts.keys_set_in|].
        intros k. rewrite JSMapFacts.get_set, !IHg.
        repeat case_decide; arith.
      * split; [done|]. intros k. rewrite IHg. repeat case_decide; arith.
    + destruct (Z.eqb_spec x new) as [H3|H3].
      * split; [by rewrite JSMapFacts.keys_set_in|].
        intros k. rewrite JSMapFacts.get_set, !IHg.
        repeat case_decide; arith.
      * split; [done|]. intros k. rewrite IHg. repeat case_decide; arith.
Qed.

(** The index after a move: the note of position [old] is at position
    [new], and the notes between the two moved by one position. *)
Lemma moved_index_get old new n m :
  JSMap.keys m = seqZ 1 n →
  1 ≤ old ≤ n → 1 ≤ new ≤ n →
  JSMap.keys (moved_index old new m) = seqZ 1 n
  ∧ ∀ k, JSMap.get k (moved_index old new m)
         = if decide (k = new) then JSMap.get old m
           else if decide (new < k ≤ old) then JSMap.get (k - 1) m
           else if decide (old ≤ k < new) then JSMap.get (k + 1) m
           else JSMap.get k m.
Proof.
  intros Hkeys Hold Hnew. unfold moved_index.
  destruct (Z.ltb_spec new old) as [Hlt|Hge].
  - set (m0 := JSMap.set new _ _).
    assert (Hk0 : JSMap.keys m0 = seqZ 1 n).
    { unfold m0. rewrite !JSMapFacts.keys_set_in; [done|..];
        rewrite ?JSMapFacts.keys_set_in; rewrite ?Hkeys, ?elem_of_seqZ; lia. }
    assert (Hg0 : ∀ k, JSMap.get k m0
                       = if decide (k = new) then JSMap.get old m
                         else if decide (k = new + 1) then JSMap.get new m
                         else JSMap.get k m).
    { intros k. unfold m0. rewrite !JSMapFacts.get_set.
      repeat case_decide; arith. }
    destruct (shift_up_prefix old new n m0 [JSMap.get (new + 1) m] (JSMap.get (new + 1) m)
                Hk0 (proj1 Hnew) eq_refl (Z.to_nat n)) as (Hk & Hg & _); [lia|].
    rewrite Z2Nat.id in Hk, Hg by lia. rewrite Hk0. split; [by rewrite Hk|].
    intros k. rewrite Hg, !Hg0. repeat case_decide; try arith.
    all: subst k; f_equal; lia.
  - destruct (shift_down_prefix old new n m (JSMap.get old m) Hkeys (Z.to_nat n))
      as (Hk & Hg); [lia|].
    rewrite Z2Nat.id in Hk, Hg by lia. rewrite Hkeys. split; [by rewrite Hk|].
    intros k. rewrite Hg. repeat case_decide; try arith.
    all: try (subst k; f_equal; lia).
    all: rewrite !JSMapFacts.get_not_in; [done|..]; rewrite Hkeys, elem_of_seqZ; lia.
Qed.





Lemma bijection_onto_perm m (l l' : list string) :
  l ≡ₚ l' → bijection_onto m l → bijection_onto m l'.
Proof.
  intros Hp (Hk & Hr & Hi & Hs). unfold bijection_onto.
  rewrite <- (Permutation_length Hp). repeat split; [done| |done|].
  - intros k Hk'. destruct (Hr k Hk') as (id & ? & ?). exists id. by rewrite <- Hp.
  - intros id Hid. apply Hs. by rewrite Hp.
Qed.


Lemma insert_middle_perm {A} (p : nat) (x : A) (l : list A) :
  take p l ++ x :: drop p l ≡ₚ x :: l.
Proof. by rewrite <- Permutation_middle, take_drop. Qed.



End OrderingMove.

(** ** Sequences of calls of the ordering methods *)

Section OrderingCalls.
Variable clock : nat → Z.





End OrderingCalls.

Module OrderingSamples.
Import Samples CallSamples.




End OrderingSamples.

(** ** The notepads the page goes through are well formed *)

Module ColorIdempotent.
Import Stdlib.Strings.Ascii Color.

Lemma lower_lower c : lower (lower c) = lower c.
Proof. by destruct c as [[] [] [] [] [] [] [] []]. Qed.

Lemma hex_digit_lower c : hex_digit (lower c) = hex_digit c.
Proof. by destruct c as [[] [] [] [] [] [] [] []]. Qed.

Lemma eqb_hash_lower c : Ascii.eqb (lower c) "#" = Ascii.eqb c "#".
Proof. by destruct c as [[] [] [] [] [] [] [] []]. Qed.

Lemma toLowerCase_idem s : toLowerCase (toLowerCase s) = toLowerCase s.
Proof. induction s as [|c s IH]; simpl; [done|]. by rewrite lower_lower, IH. Qed.

Lemma hex_digits_lower n s :
  hex_digits n (toLowerCase s) = toLowerCase <$> hex_digits n s.
Proof.
  revert s. induction n as [|n IH]; intros s; [done|].
  destruct s as [|c s]; simpl; [done|].
  rewrite hex_digit_lower. destruct (hex_digit c); [apply IH | done].
Qed.

Lemma at_end_lower r : at_end (toLowerCase <$> r) = at_end r.
Proof. by destruct r as [[|]|]. Qed.

Lemma hexColorRegex_test_lower s :
  hexColorRegex_test (toLowerCase s) = hexColorRegex_test s.
Proof.
  destruct s as [|c s]; [done|].
  unfold hexColorRegex_test. cbn [toLowerCase].
  rewrite eqb_hash_lower. destruct (Ascii.eqb c "#"); [|done].
  by rewrite !hex_digits_lower, !at_end_lower.
Qed.

(** The colour that passed the check passes it again, unchanged. *)
Lemma accentColor_of_checked v : checked_color (accentColor_of v).
Proof.
  unfold checked_color.
  destruct (truthy v && hexColorRegex_test (to_id v)) eqn:E.
  - assert (accentColor_of v = toLowerCase (to_id v)) as ->.
    { unfold accentColor_of. by rewrite E. }
    apply andb_true_iff in E as [Ht Hh]. destruct v as [c|]; [|done]. simpl in *.
    unfold accentColor_of.
    change (to_id (Some (toLowerCase c))) with (toLowerCase c).
    rewrite hexColorRegex_test_lower, Hh, toLowerCase_idem.
    assert (truthy (Some (toLowerCase c)) = true) as ->; [|done].
    by destruct c.
  - assert (accentColor_of v = "") as ->; [|done].
    unfold accentColor_of. by rewrite E.
Qed.

Lemma defaults_checked : Forall checked_color Defaults.accentColors.
Proof. repeat constructor. Qed.

End ColorIdempotent.

Section WellFormed.
Variable clock : nat → Z.
Implicit Types (s : Notepad).

Lemma well_formed_same_notes s s' : same_notes s s' → well_formed s → well_formed s'.
Proof.
  intros (Hd & _ & Hc & _) [Hn Hp]. split; [|by rewrite Hc].
  assert (H : Forall (λ x, rec_id x ≠ "" ∧ checked_color (rec_accentColor x))
                (note_data <$> notesContainer s')).
  { rewrite Hd. apply Forall_fmap. eapply Forall_impl; [done|]. by intros n [? ?]. }
  apply Forall_fmap in H. eapply Forall_impl; [done|]. by intros n [? ?].
Qed.

Lemma well_formed_indexNotes s : well_formed s → well_formed (indexNotes s).2.
Proof. apply well_formed_same_notes, indexNotes_same_notes. Qed.

Lemma well_formed_newNote noteProperties s :
  well_formed s → well_formed (state_after (newNote clock noteProperties) s).
Proof.
  intros [Hn Hp]. unfold state_after. rewrite newNote_unfold.
  apply well_formed_indexNotes. split; simpl.
  - apply Forall_app. split; [done|]. apply Forall_singleton. split; simpl.
    + apply newNote_id_nonempty.
    + apply ColorIdempotent.accentColor_of_checked.
  - case_bool_decide; [done|]. apply Forall_app. split; [done|].
    apply Forall_singleton, ColorIdempotent.accentColor_of_checked.
Qed.

Lemma well_formed_deleteNote noteID s :
  well_formed s → well_formed (state_after (deleteNote noteID) s).
Proof.
  intros [Hn Hp]. unfold deleteNote, getElementById, remove_child.
  unfold_monad. destruct (list_find _ _) as [[i el]|] eqn:E; simpl; [|done].
  apply well_formed_indexNotes.
  destruct (parseInt _); split; simpl; try done; by apply Forall_delete.
Qed.

Lemma well_formed_moveNote noteID old new s :
  well_formed s → well_formed (state_after (moveNote noteID old new) s).
Proof.
  intros [Hn Hp]. unfold moveNote, getElementById, querySelector_note_index, index_size,
    index_get, index_set, remove_child, insertBefore, nextSibling, append_child.
  unfold_monad. destruct (list_find _ _) as [[i note]|] eqn:E; simpl; [|done].
  apply list_find_Some in E as (Hi & _ & _).
  assert (Hnote : ∀ z, wf_note (moved_note z note)).
  { intros z. rewrite Forall_lookup in Hn. apply (Hn i note Hi). }
  assert (HD : Forall wf_note (delete i (notesContainer s))) by (by apply Forall_delete).
  repeat case_match; simplify_eq/=.
  all: try (split; simpl; done).
  all: try apply well_formed_indexNotes.
  all: split; simpl; try done.
  all: rewrite ?Forall_app, ?Forall_cons; repeat split; try done.
  all: try apply Hnote; try (by apply Forall_take); try (by apply Forall_drop).
Qed.

Lemma well_formed_changeNoteAccentColor noteID s :
  well_formed s → well_formed (state_after (changeNoteAccentColor noteID) s).
Proof.
  intros [Hn Hp]. unfold changeNoteAccentColor, getElementById, update_child.
  unfold_monad. destruct (list_find _ _) as [[i el]|] eqn:E; simpl; [|done].
  split; simpl; [|done].
  assert (Hnext : ∀ k, checked_color
            (if truthy (accentColors s !! k) then to_id (accentColors s !! k) else "")).
  { intros k. destruct (accentColors s !! k) as [c|] eqn:Ek; [|done].
    destruct (truthy (Some c)); [|done]. simpl.
    rewrite Forall_lookup in Hp. by apply (Hp k). }
  apply Forall_alter; [done|]. intros n Hi [Hid _]. split; [done|]. simpl.
  destruct (list_find _ (accentColors s)) as [[ci c]|]; [case_bool_decide|];
    apply Hnext.
Qed.

Lemma well_formed_newNotepad addNewNote s :
  well_formed s → well_formed (state_after (newNotepad clock addNewNote) s).
Proof.
  intros [_ Hp]. unfold newNotepad, Date_now. unfold_monad. simpl.
  destruct addNewNote.
  - match goal with |- context [newNote clock ?p ?s0] =>
      pose proof (well_formed_newNote p s0) as H; unfold state_after in H;
      destruct (newNote clock p s0) as [[[]|e] s1] end; simpl in *.
    + split; simpl; [|apply ColorIdempotent.defaults_checked].
      apply H. split; [by apply Forall_nil | done].
    + apply H. split; [by apply Forall_nil | done].
  - split; simpl; [by apply Forall_nil | apply ColorIdempotent.defaults_checked].
Qed.

Lemma keeps_bind {A B} (P : Notepad → Prop) (m : M Notepad A) (k : A → M Notepad B) :
  (∀ s, P s → P (state_after m s)) →
  (∀ a s, P s → P (state_after (k a) s)) →
  ∀ s, P s → P (state_after (bind m k) s).
Proof.
  intros Hm Hk s Hs. rewrite state_after_bind. specialize (Hm s Hs).
  unfold state_after in Hm. destruct (m s) as [[a|e] s']; simpl in *; auto.
Qed.

Lemma well_formed_fillNotepad notepad clear s :
  well_formed s → well_formed (state_after (fillNotepad clock notepad clear) s).
Proof.
  revert s. unfold fillNotepad.
  apply keeps_bind; [destruct clear; [apply well_formed_newNotepad | done]|].
  intros _. do 4 (apply keeps_bind; [by intros s [? ?]|]; intros _).
  destruct (0 <? _)%nat; [|done].
  apply (for_each_invariant well_formed). intros x s. apply well_formed_newNote.
Qed.

Lemma well_formed_constructor t :
  well_formed (state_after (constructor clock) (blank_page t)).
Proof.
  assert (H0 : well_formed (blank_page t)).
  { split; [by apply Forall_nil | apply ColorIdempotent.defaults_checked]. }
  revert H0. generalize (blank_page t). unfold constructor.
  apply keeps_bind; [by intros s [? ?]|]. intros now.
  apply keeps_bind; [by intros s [? ?]|]. intros _.
  apply keeps_bind; [by intros s [? ?]|]. intros currentTime.
  do 3 (apply keeps_bind; [by intros s [? ?]|]; intros _).
  apply well_formed_newNote.
Qed.

Lemma well_formed_edit e s : well_formed s → well_formed (apply_edit e s).
Proof.
  intros [Hn Hp]. destruct e as [text|i text|i text]; split; simpl; try done.
  all: apply Forall_alter; [done|]; by intros n _ [? ?].
Qed.

(** Every notepad the page goes through has notes with an id and a checked
    accent colour. *)
Lemma reachable_well_formed s : reachable clock s → well_formed s.
Proof.
  induction 1 as [t|c s _ IH|e s _ IH].
  - apply well_formed_constructor.
  - destruct c; simpl.
    + by apply well_formed_newNote.
    + by apply well_formed_deleteNote.
    + by apply well_formed_moveNote.
    + by apply well_formed_changeNoteAccentColor.
    + by apply well_formed_newNotepad.
    + by apply well_formed_fillNotepad.
  - by apply well_formed_edit.
Qed.

End WellFormed.

(** ** #retrieveNotepad, then #fillNotepad *)

Section RoundTrip.
Variable clock : nat → Z.
Implicit Types (s : Notepad) (l : list NoteRecord) (x : NoteRecord).

Lemma enumerate_snoc l x :
  enumerate (l ++ [x]) = enumerate l ++ [(Z.of_nat (length l) + 1, Some (rec_id x))].
Proof.
  unfold enumerate. rewrite imap_app. simpl. by rewrite Nat.add_0_r.
Qed.

Lemma enumerate_keys l : JSMap.keys (enumerate l) = seqZ 1 (Z.of_nat (length l)).
Proof.
  induction l as [|x l IH] using rev_ind; [done|].
  rewrite enumerate_snoc, length_app. unfold JSMap.keys in *. rewrite fmap_app, IH.
  change (length [x]) with 1%nat.
  replace (Z.of_nat (length l + 1)) with (Z.of_nat (S (length l))) by lia.
  rewrite seqZ_S. simpl. do 2 f_equal. lia.
Qed.

Lemma enumerate_size l : JSMap.size (enumerate l) = Z.of_nat (length l).
Proof. rewrite JSMapFacts.size_keys, enumerate_keys, length_seqZ. lia. Qed.






Lemma enumerate_get l (i : nat) x :
  l !! i = Some x → JSMap.get (Z.of_nat i + 1) (enumerate l) = Some (rec_id x).
Proof.
  induction l as [|y l IH] using rev_ind; [done|].
  rewrite enumerate_snoc. intros Hi.
  destruct (decide (i < length l)%nat) as [Hlt|Hge].
  - rewrite lookup_app_l in Hi by done.
    rewrite JSMapFacts.get_app_l; [by apply IH|].
    rewrite enumerate_keys, elem_of_seqZ. lia.
  - rewrite lookup_app_r in Hi by lia.
    destruct (i - length l)%nat as [|?] eqn:Ei; [|done]. injection Hi as ->.
    rewrite JSMapFacts.get_app_r by (rewrite enumerate_keys, elem_of_seqZ; lia).
    simpl. replace (Z.of_nat i) with (Z.of_nat (length l)) by lia.
    by rewrite Z.eqb_refl.
Qed.


End RoundTrip.

Module RoundTripSample.
Import Samples.

Lemma abc_notepad_reachable : reachable sample_clock abc_notepad.
Proof.
  unfold abc_notepad. apply reachable_call, reachable_constructor.
Qed.


End RoundTripSample.

(* ================================================================== *)
(** * Part III. Properties read off the code *)
(* ================================================================== *)

(** ** countWords: words are runs of word characters *)

Module RunsFacts.
Import Utilities Samples Runs.
Implicit Types (s rest : list codepoint) (k : list codepoint → option (list codepoint)).

Lemma skip_length cls s : (length (skip cls s) <= length s)%nat.
Proof. induction s as [|c s IH]; simpl; [done|]. destruct (cls c); simpl; lia. Qed.

(** A star whose continuation fails on every input that starts in the
    class stops after the longest run only. *)
Lemma re_star_greedy cls s k :
  (∀ c s', cls c = true → k (c :: s') = None) →
  re_star cls s k = k (skip cls s).
Proof.
  intros Hk. induction s as [|c s IH]; simpl; [done|].
  destruct (cls c) eqn:E; [|done].
  rewrite IH. destruct (k (skip cls s)) eqn:Ek; [done|]. by apply Hk.
Qed.

(** A star whose continuation never fails does not backtrack. *)
Lemma re_star_total cls s k :
  (∀ s', k s' ≠ None) → re_star cls s k = k (skip cls s).
Proof.
  intros Hk. induction s as [|c s IH]; simpl; [done|].
  destruct (cls c) eqn:E; [|done].
  rewrite IH. destruct (k (skip cls s)) eqn:Ek; [done|]. by apply Hk in Ek.
Qed.

Section Disjoint.
Variable EP : codepoint → bool.
Hypothesis disjoint : ∀ c, word_class EP c = true → space_class c = false.

Lemma space_not_word c : space_class c = true → word_class EP c = false.
Proof.
  intros Hs. destruct (word_class EP c) eqn:E; [|done].
  apply disjoint in E. congruence.
Qed.

(** A match is: the spaces, the longest run of word characters, the spaces. *)
Lemma regex_at_skip s :
  regex_at EP s
  = match skip space_class s with
    | c :: s' =>
        if word_class EP c
        then Some (skip space_class (skip (word_class EP) s'))
        else None
    | [] => None
    end.
Proof.
  unfold regex_at. rewrite re_star_greedy.
  - unfold re_plus. destruct (skip space_class s) as [|c s']; [done|].
    destruct (word_class EP c); [|done].
    rewrite re_star_total.
    + by rewrite re_star_total.
    + intros s2. by rewrite re_star_total.
  - intros c s' Hc. simpl. by rewrite space_not_word.
Qed.

Lemma word_runs_skip_word s :
  word_runs (word_class EP) true s
  = word_runs (word_class EP) false (skip (word_class EP) s).
Proof.
  induction s as [|c s IH]; simpl; [done|].
  destruct (word_class EP c) eqn:E; simpl; [done|]. by rewrite E.
Qed.

Lemma word_runs_skip_space s :
  word_runs (word_class EP) false (skip space_class s)
  = word_runs (word_class EP) false s.
Proof.
  induction s as [|c s IH]; simpl; [done|].
  destruct (space_class c) eqn:E; simpl; [|done].
  by rewrite space_not_word.
Qed.

Lemma regex_at_runs s rest :
  regex_at EP s = Some rest →
  word_runs (word_class EP) false s = S (word_runs (word_class EP) false rest)
  ∧ (length rest < length s)%nat.
Proof.
  rewrite regex_at_skip. pose proof (skip_length space_class s) as Hl.
  rewrite <- (word_runs_skip_space s).
  destruct (skip space_class s) as [|c s']; [done|].
  destruct (word_class EP c) eqn:E; [|done]. intros [= <-]. split.
  - simpl. rewrite E, word_runs_skip_space. by rewrite word_runs_skip_word.
  - pose proof (skip_length space_class (skip (word_class EP) s')).
    pose proof (skip_length (word_class EP) s'). simpl in Hl. lia.
Qed.

Lemma regex_at_None c s : regex_at EP (c :: s) = None → word_class EP c = false.
Proof.
  rewrite regex_at_skip. destruct (word_class EP c) eqn:E; [|done].
  simpl. by rewrite (disjoint c E), E.
Qed.

Lemma regex_exec_cons c s :
  regex_exec EP (c :: s)
  = match regex_at EP (c :: s) with
    | Some rest => Some (take (length (c :: s) - length rest) (c :: s), rest)
    | None => regex_exec EP s
    end.
Proof. done. Qed.

Lemma regex_exec_runs s :
  match regex_exec EP s with
  | Some (_, rest) =>
      word_runs (word_class EP) false s = S (word_runs (word_class EP) false rest)
      ∧ (length rest < length s)%nat
  | None => word_runs (word_class EP) false s = 0%nat
  end.
Proof.
  induction s as [|c s IH].
  - by vm_compute.
  - rewrite regex_exec_cons. destruct (regex_at EP (c :: s)) as [rest|] eqn:E.
    + by apply regex_at_runs.
    + apply regex_at_None in E. simpl. rewrite E.
      destruct (regex_exec EP s) as [[m rest]|]; [|done].
      destruct IH as [-> ?]. split; [done | lia].
Qed.

(** With fuel for every code point, the loop finds every word. *)
Lemma match_loop_runs fuel s :
  (length s < fuel)%nat →
  length (match_loop EP fuel s) = word_runs (word_class EP) false s.
Proof.
  revert s. induction fuel as [|fuel IH]; intros s Hf; [lia|].
  simpl. pose proof (regex_exec_runs s) as H.
  destruct (regex_exec EP s) as [[m rest]|]; [|done].
  destruct H as [-> Hl]. simpl. f_equal. apply IH. lia.
Qed.

Lemma countWords_length s :
  countWords EP s = Z.of_nat (length (match_loop EP (S (length s)) s)).
Proof. unfold countWords, String_match. by destruct (match_loop _ _ _). Qed.

End Disjoint.

(** The sample table holds no white space. *)
Lemma sample_pictographic_disjoint c :
  word_class sample_pictographic c = true → space_class c = false.
Proof.
  intros Hw. destruct (space_class c) eqn:Hs; [|done]. exfalso.
  unfold word_class, space_class, white_space, sample_pictographic, in_range in *.
  repeat rewrite ?orb_true_iff, ?andb_true_iff, ?Z.leb_le, ?Z.eqb_eq in Hw.
  repeat rewrite ?orb_true_iff, ?andb_true_iff, ?Z.leb_le, ?Z.eqb_eq in Hs.
  lia.
Qed.

(** X1. [countWords] counts the maximal runs of word characters (letters
    of the two Latin ranges, digits, pictographs and their modifiers): a
    code point of any other kind, white space or not, ends a word, and
    nothing else does.  The table of pictographs is assumed to hold no
    white space. *)
Theorem countWords_counts_runs (Extended_Pictographic : codepoint → bool)
    (targetString : list codepoint) :
  (∀ c, word_class Extended_Pictographic c = true → space_class c = false) →
  countWords Extended_Pictographic targetString
  = Z.of_nat (word_runs (word_class Extended_Pictographic) false targetString).
Proof.
  intros Hd. rewrite countWords_length. f_equal. apply match_loop_runs; [done | lia].
Qed.

Lemma countWords_counts_runs_witness :
  countWords sample_pictographic hello_world
  = Z.of_nat (word_runs (word_class sample_pictographic) false hello_world).
Proof.
  apply (countWords_counts_runs sample_pictographic hello_world).
  apply sample_pictographic_disjoint.
Defined.

Lemma word_runs_zero word s :
  word_runs word false s = 0%nat ↔ Forall (λ c, word c = false) s.
Proof.
  induction s as [|c s IH]; simpl; [by split|].
  rewrite Forall_cons. destruct (word c) eqn:E; simpl; [|by rewrite IH; tauto].
  split; [done | by intros [? _]].
Qed.

(** X2. A text counts no word exactly when it holds no word character;
    in particular the empty text and a text of spaces and punctuation
    count zero.  The table of pictographs is assumed to hold no white
    space. *)
Theorem countWords_zero_iff (Extended_Pictographic : codepoint → bool)
    (targetString : list codepoint) :
  (∀ c, word_class Extended_Pictographic c = true → space_class c = false) →
  countWords Extended_Pictographic targetString = 0
  ↔ Forall (λ c, word_class Extended_Pictographic c = false) targetString.
Proof.
  intros Hd. rewrite countWords_length, match_loop_runs by (done || lia).
  rewrite <- word_runs_zero. lia.
Qed.

Lemma countWords_zero_iff_witness :
  countWords sample_pictographic [0x20; 0x2D; 0x2E; 0x0A] = 0
  ↔ Forall (λ c, word_class sample_pictographic c = false) [0x20; 0x2D; 0x2E; 0x0A].
Proof.
  apply (countWords_zero_iff sample_pictographic [0x20; 0x2D; 0x2E; 0x0A]).
  apply sample_pictographic_disjoint.
Defined.

End RunsFacts.

(** ** getReadTime: the floating-point estimate and the exact formula *)

Module ReadTimeFacts.
Import Utilities Samples Runs.

Lemma agree_from_spec f g fuel n :
  agree_from f g fuel n = true →
  ∀ k, n ≤ k < n + Z.of_nat fuel → f k = g k.
Proof.
  revert n. induction fuel as [|fuel IH]; intros n H k Hk; [lia|].
  simpl in H. apply andb_true_iff in H as [H1 H2].
  destruct (decide (k = n)) as [->|Hne]; [by apply Z.eqb_eq|].
  apply (IH (n + 1) H2). lia.
Qed.

Lemma ceil_283_exact n :
  0 ≤ n < checked_words → ceil_283 n = estimateReadSeconds 283 n.
Proof.
  intros Hn.
  apply (agree_from_spec ceil_283 (estimateReadSeconds 283) (Z.to_nat checked_words) 0).
  - by vm_compute.
  - unfold checked_words in *. lia.
Qed.

Lemma ceil_238_exact n :
  0 ≤ n < checked_words → ceil_238 n = estimateReadSeconds 238 n.
Proof.
  intros Hn.
  apply (agree_from_spec ceil_238 (estimateReadSeconds 238) (Z.to_nat checked_words) 0).
  - by vm_compute.
  - unfold checked_words in *. lia.
Qed.

Lemma countWords_nonneg EP s : 0 ≤ countWords EP s.
Proof. unfold countWords. destruct (String_match EP s); lia. Qed.

(** X3. On a text of fewer than twenty thousand words, the binary64
    arithmetic of [getReadTime] loses nothing: the seconds returned are
    the exact ceiling of the word count times 60 over 283. *)
Theorem getReadTime_exact (Extended_Pictographic : codepoint → bool)
    (targetString : list codepoint) :
  countWords Extended_Pictographic targetString < 20000 →
  getReadTime Extended_Pictographic targetString
  = estimateReadSeconds 283 (countWords Extended_Pictographic targetString).
Proof.
  intros H. apply ceil_283_exact. split; [apply countWords_nonneg | done].
Qed.

Lemma getReadTime_exact_witness :
  getReadTime sample_pictographic hello_world
  = estimateReadSeconds 283 (countWords sample_pictographic hello_world).
Proof.
  apply (getReadTime_exact sample_pictographic hello_world). by vm_compute.
Defined.

(** X4. The later revision, on a text of fewer than twenty thousand
    words: the seconds are the exact ceiling of the word count times 60
    over 238, shown as seconds alone below one minute and as minutes and
    seconds from one minute. *)
Theorem getReadTime_later_exact (Extended_Pictographic : codepoint → bool)
    (targetString : list codepoint) :
  countWords Extended_Pictographic targetString < 20000 →
  let seconds := estimateReadSeconds 238 (countWords Extended_Pictographic targetString) in
  getReadTime_seconds' Extended_Pictographic targetString = seconds
  ∧ (seconds < 60 →
       getReadTime' Extended_Pictographic targetString = pretty seconds +:+ "s")
  ∧ (60 ≤ seconds →
       getReadTime' Extended_Pictographic targetString
       = pretty (seconds / 60) +:+ "m " +:+ pretty (seconds mod 60) +:+ "s").
Proof.
  intros H seconds.
  assert (E : getReadTime_seconds' Extended_Pictographic targetString = seconds).
  { apply ceil_238_exact. split; [apply countWords_nonneg | done]. }
  assert (H0 : 0 ≤ seconds).
  { unfold seconds, estimateReadSeconds. pose proof (countWords_nonneg Extended_Pictographic targetString).
    apply Z.div_pos; lia. }
  split; [done|]. unfold getReadTime'. rewrite E. split; intros Hs.
  - assert (seconds / 60 = 0) as -> by (apply Z.div_small; lia).
    simpl. by rewrite Z.mod_small by lia.
  - assert (0 < seconds / 60) by (apply Z.div_str_pos; lia).
    by destruct (Z.ltb_spec 0 (seconds / 60)); [|lia].
Qed.

Lemma getReadTime_later_exact_witness :
  let seconds := estimateReadSeconds 238 (countWords sample_pictographic four_words) in
  getReadTime_seconds' sample_pictographic four_words = seconds
  ∧ (seconds < 60 → getReadTime' sample_pictographic four_words = pretty seconds +:+ "s")
  ∧ (60 ≤ seconds →
       getReadTime' sample_pictographic four_words
       = pretty (seconds / 60) +:+ "m " +:+ pretty (seconds mod 60) +:+ "s").
Proof.
  apply (getReadTime_later_exact sample_pictographic four_words). by vm_compute.
Defined.

End ReadTimeFacts.

(** ** generateID and dataFallbackMode *)

Module MoreUtilitiesFacts.
Import Utilities Fallback Samples MoreSamples.

Lemma string_length_app (x y : string) :
  String.length (x +:+ y) = (String.length x + String.length y)%nat.
Proof.
  induction x as [|c x IH]; [done|].
  change (S (String.length (x +:+ y)) = S (String.length x + String.length y)).
  by rewrite IH.
Qed.

Lemma string_app_inj_r (x y z : string) : x +:+ z = y +:+ z → x = y.
Proof.
  revert y. induction x as [|c x IH]; intros [|d y] H.
  - done.
  - apply (f_equal String.length) in H.
    change (String.length z = S (String.length (y +:+ z))) in H.
    rewrite string_length_app in H. lia.
  - apply (f_equal String.length) in H.
    change (S (String.length (x +:+ z)) = String.length z) in H.
    rewrite string_length_app in H. lia.
  - change (String c (x +:+ z) = String d (y +:+ z)) in H.
    injection H as -> H. f_equal. by apply IH.
Qed.

(** X5. With the same two tags, [generateID] gives the same id exactly for
    the same time: two ids generated at different readings of the clock
    differ, and two ids generated within the same millisecond are the
    same. *)
Theorem generateID_same_time (frontTag backTag : string) (time time' : Z) :
  generateID frontTag backTag time = generateID frontTag backTag time'
  ↔ time = time'.
Proof.
  split; [|by intros ->]. unfold generateID. intros H.
  apply (inj (String.append _)) in H. apply string_app_inj_r in H.
  by apply (inj pretty) in H.
Qed.

(** X6. When the action throws on the new data and throws again on the
    old data, [dataFallbackMode] throws the second error, from the state
    the second attempt reached: the first revision shows no alert, the
    later one has written its [console.error] line before the second
    attempt. *)
Theorem dataFallbackMode_both_fail {D : Type} (oldData newData : D)
    (action : D → M Browser unit) (b b1 : Browser) (e : exn) :
  action newData b = (Throws e, b1) →
  (∀ e' b2, action oldData b1 = (Throws e', b2) →
     dataFallbackMode oldData newData action b = (Throws e', b2))
  ∧ (∀ e' b2, action oldData
                (set_console (console b1 ++ ["Action failed, reverting." +:+ " "
                                             +:+ exn_toString e]) b1)
              = (Throws e', b2) →
     dataFallbackMode' oldData newData action b = (Throws e', b2)).
Proof.
  intros Hnew. split; intros e' b2 Hold.
  - unfold dataFallbackMode, try_catch, bind, alert, modify.
    by rewrite Hnew, Hold.
  - unfold dataFallbackMode', try_catch, bind, console_error, modify.
    by rewrite Hnew, Hold.
Qed.

Lemma dataFallbackMode_both_fail_witness :
  dataFallbackMode (Some ∅) None always_throws empty_browser
  = (Throws (TypeError "Cannot read properties of null (reading 'id')"), empty_browser)
  ∧ dataFallbackMode' (Some ∅) None always_throws empty_browser
  = (Throws (TypeError "Cannot read properties of null (reading 'id')"),
     set_console ["Action failed, reverting. TypeError: Cannot read properties of null (reading 'id')"]
       empty_browser).
Proof.
  destruct (dataFallbackMode_both_fail (Some ∅) None always_throws empty_browser
              empty_browser (TypeError "Cannot read properties of null (reading 'id')")
              eq_refl) as [H1 H2].
  split.
  - exact (H1 _ _ eq_refl).
  - exact (H2 _ _ eq_refl).
Defined.

End MoreUtilitiesFacts.

(** ** The stored notepads: what is written is read back *)

Module StorageFacts.
Import Samples.







(** X10. On a storage that refuses every write, each of the three methods
    that write it ends normally: the error is caught, one alert with the
    error is shown, and the stored notepads are read as before. *)
Theorem refused_write_is_reported (b : Browser) :
  (∀ notepads, quota b notepads = false) →
  let b' := set_alerts (alerts b ++ [storage_error QuotaExceededError]) b in
  (∀ notepads, replaceStoredNotepads notepads b = (Done tt, b'))
  ∧ (∀ notepadID, removeStoredNotepad notepadID b = (Done tt, b'))
  ∧ (∀ notepad o, objects b !! notepad = Some o → storeNotepad notepad b = (Done tt, b'))
  ∧ result_of getAllStoredNotepads b' = result_of getAllStoredNotepads b
  ∧ (∀ notepadID, result_of (getStoredNotepad notepadID) b'
                  = result_of (getStoredNotepad notepadID) b).
Proof.
  intros Hq b'. repeat split.
  - intros notepads. unfold replaceStoredNotepads, setItem, alert. unfold_monad.
    by rewrite Hq.
  - intros notepadID. unfold removeStoredNotepad, setItem, alert. unfold_monad.
    simpl. by rewrite Hq.
  - intros notepad o Ho. unfold storeNotepad, deref, setItem, alert. unfold_monad.
    simpl. rewrite Ho. simpl. by rewrite Hq.
Qed.

Lemma refused_write_is_reported_witness :
  let b' := set_alerts (alerts MoreSamples.full_browser
                        ++ [storage_error QuotaExceededError]) MoreSamples.full_browser in
  (∀ notepads, replaceStoredNotepads notepads MoreSamples.full_browser = (Done tt, b'))
  ∧ (∀ notepadID, removeStoredNotepad notepadID MoreSamples.full_browser = (Done tt, b'))
  ∧ (∀ notepad o, objects MoreSamples.full_browser !! notepad = Some o →
       storeNotepad notepad MoreSamples.full_browser = (Done tt, b'))
  ∧ result_of getAllStoredNotepads b'
    = result_of getAllStoredNotepads MoreSamples.full_browser
  ∧ (∀ notepadID, result_of (getStoredNotepad notepadID) b'
                  = result_of (getStoredNotepad notepadID) MoreSamples.full_browser).
Proof. apply (refused_write_is_reported MoreSamples.full_browser). reflexivity. Defined.

Section DuplicateStored.
Variable clock : nat → Z.

(** X11. The copy [#duplicateNotepad] makes is stored: when the storage
    accepts the write, [#getStoredNotepad] reads, under the new id, the
    title followed by [" (Copy)"], the two new timestamps and the notes of
    the source; the notepads stored under other ids are as before. *)
Theorem duplicateNotepad_is_stored (notepad : loc) (o : NotepadObject) (b : Browser) :
  objects b !! notepad = Some o →
  (∀ notepads, quota b notepads = true) →
  let id := Utilities.generateID Defaults.tag_notepad "" (clock (b_tick b)) in
  ∃ (duplicatedNotepad : loc) (b' : Browser),
    duplicateNotepad clock notepad b = (Done duplicatedNotepad, b')
    ∧ result_of (getStoredNotepad id) b'
      = Done (Some (mkNotepadRecord (obj_title o +:+ " (Copy)") id
                      (clock (S (b_tick b))) (clock (S (b_tick b)))
                      (np_notes (record_of b o))))
    ∧ (∀ notepadID, notepadID ≠ id →
         result_of (getStoredNotepad notepadID) b'
         = result_of (getStoredNotepad notepadID) b)
    ∧ alerts b' = alerts b.
Proof.
  intros Ho Hq id.
  unfold duplicateNotepad, Object_assign_empty, storeNotepad, deref, update_object,
    Date_now_b, setItem, alert, getStoredNotepad.
  unfold_monad. simpl. rewrite Ho. simpl.
  rewrite !lookup_alter_eq, lookup_insert_eq. simpl. rewrite Hq.
  eexists _, _. split; [reflexivity|]. simpl. fold id.
  split; [by rewrite lookup_insert_eq|]. split; [|done].
  intros notepadID Hne. by rewrite lookup_insert_ne.
Qed.

End DuplicateStored.

Lemma duplicateNotepad_is_stored_witness :
  let id := Utilities.generateID Defaults.tag_notepad ""
              (sample_clock (b_tick sample_browser)) in
  ∃ (duplicatedNotepad : loc) (b' : Browser),
    duplicateNotepad sample_clock 1%positive sample_browser = (Done duplicatedNotepad, b')
    ∧ result_of (getStoredNotepad id) b'
      = Done (Some (mkNotepadRecord (obj_title sample_object +:+ " (Copy)") id
                      (sample_clock (S (b_tick sample_browser)))
                      (sample_clock (S (b_tick sample_browser)))
                      (np_notes (record_of sample_browser sample_object))))
    ∧ (∀ notepadID, notepadID ≠ id →
         result_of (getStoredNotepad notepadID) b'
         = result_of (getStoredNotepad notepadID) sample_browser)
    ∧ alerts b' = alerts sample_browser.
Proof.
  apply (duplicateNotepad_is_stored sample_clock 1%positive sample_object sample_browser);
    reflexivity.
Defined.

End StorageFacts.

(** ** The page and the index in step *)

Section PageFacts.
Implicit Types (s : Notepad) (k : Z) (id : string).

(** Two indexes with the same keys, in the same order, and the same values
    are the same. *)
Lemma jsmap_ext (m m' : JSMap.t) :
  JSMap.keys m = JSMap.keys m' → NoDup (JSMap.keys m) →
  (∀ k, k ∈ JSMap.keys m → JSMap.get k m = JSMap.get k m') → m = m'.
Proof.
  revert m'. induction m as [|[k v] m IH]; intros [|[k' v'] m'] Hk Hnd Hg; try done.
  simpl in Hk. injection Hk as -> Hk. apply NoDup_cons in Hnd as [Hnotin Hnd].
  pose proof (Hg k' ltac:(simpl; set_solver)) as Hv. simpl in Hv.
  rewrite Z.eqb_refl in Hv. subst v'. f_equal. apply IH; [done..|].
  intros k Hin. specialize (Hg k ltac:(simpl; set_solver)). simpl in Hg.
  destruct (Z.eqb_spec k' k) as [->|_]; [done|]. done.
Qed.

Lemma ids_data s : rec_id <$> (note_data <$> notesContainer s) = ids s.
Proof. unfold ids. by rewrite <- list_fmap_compose. Qed.

Lemma in_step_size s :
  in_step s → JSMap.size (notesContainerIndex s) = Z.of_nat (length (notesContainer s)).
Proof. intros ->. by rewrite enumerate_size, length_fmap. Qed.

Lemma in_step_get s (i : nat) n :
  in_step s → notesContainer s !! i = Some n →
  JSMap.get (Z.of_nat i + 1) (notesContainerIndex s) = Some (note_id n).
Proof.
  intros -> Hi. apply (enumerate_get _ i (note_data n)).
  by rewrite list_lookup_fmap, Hi.
Qed.

Lemma in_step_keys s :
  in_step s → JSMap.keys (notesContainerIndex s) = seqZ 1 (Z.of_nat (length (ids s))).
Proof. intros ->. unfold ids. by rewrite enumerate_keys, !length_fmap. Qed.

(** A page in step whose notes have distinct ids has a bijection for index. *)
Lemma in_step_bijection s : in_step s → NoDup (ids s) → index_bijection s.
Proof.
  intros Hs Hnd. split; [|done].
  assert (Hlen : length (ids s) = length (notesContainer s)) by apply length_fmap.
  assert (Hat : ∀ k, 1 ≤ k ≤ Z.of_nat (length (ids s)) →
            ∃ n, notesContainer s !! Z.to_nat (k - 1) = Some n
                 ∧ JSMap.get k (notesContainerIndex s) = Some (note_id n)).
  { intros k Hk. destruct (lookup_lt_is_Some_2 (notesContainer s) (Z.to_nat (k - 1)))
      as [n Hn]; [lia|].
    exists n. split; [done|].
    replace k with (Z.of_nat (Z.to_nat (k - 1)) + 1) at 1 by lia.
    by apply in_step_get. }
  unfold bijection_onto. repeat split.
  - by apply in_step_keys.
  - intros k Hk. destruct (Hat k Hk) as (n & Hn & Hg). exists (note_id n).
    split; [done|]. apply elem_of_ids. exists n. split; [|done].
    by eapply list_elem_of_lookup_2.
  - intros k k' Hk Hk' E.
    destruct (Hat k Hk) as (n & Hn & Hg). destruct (Hat k' Hk') as (n' & Hn' & Hg').
    rewrite Hg, Hg' in E. injection E as E.
    assert (Z.to_nat (k - 1) = Z.to_nat (k' - 1)); [|lia].
    apply (NoDup_lookup (ids s) _ _ (note_id n) Hnd); unfold ids;
      rewrite list_lookup_fmap.
    + by rewrite Hn.
    + rewrite Hn'. simpl. by rewrite E.
  - intros id [i Hi]%list_elem_of_lookup. unfold ids in Hi.
    rewrite list_lookup_fmap in Hi.
    destruct (notesContainer s !! i) as [n|] eqn:Hn; [|done]. injection Hi as <-.
    exists (Z.of_nat i + 1). apply lookup_lt_Some in Hn as Hlt.
    split; [lia|]. by apply in_step_get.
Qed.

(** On a page in step with distinct ids, the position a note shows is its
    place. *)
Lemma shown_places s :
  in_step s → NoDup (ids s) → positions_shown s → shows_places s.
Proof.
  intros Hs Hnd Hp i n Hi.
  destruct (Hp n) as (k & Ha & Hv & Hm & Hg); [by eapply list_elem_of_lookup_2|].
  destruct (in_step_bijection s Hs Hnd) as [(Hkeys & _ & Hinj & _) _].
  assert (k = Z.of_nat i + 1) as ->.
  { apply Hinj.
    - apply JSMapFacts.get_Some_in in Hg. rewrite Hkeys, elem_of_seqZ in Hg. lia.
    - apply lookup_lt_Some in Hi. unfold ids. rewrite length_fmap. lia.
    - rewrite Hg. symmetry. by apply in_step_get. }
  by rewrite Ha, Hv, Hm, in_step_size.
Qed.

Lemma tidy_index_ok s : tidy s → index_ok s.
Proof.
  intros (Hs & Hnd & Hne & Hp). split; [by apply in_step_bijection|]. split; [done|].
  intros n [i Hi]%list_elem_of_lookup. exists (Z.of_nat i + 1).
  destruct (Hp i n Hi) as (-> & _). split; [done|]. by apply in_step_get.
Qed.

(** [#indexNotes] on a bijection writes, on every note, the position the
    index gives its id: in the attribute, in the input and, as the maximum
    of the input, the size of the index. *)
Lemma indexNotes_shown s :
  index_bijection s →
  ∃ s', indexNotes s = (Done tt, s') ∧ same_notes s s' ∧ positions_shown s'.
Proof.
  intros [(Hkeys & Hrange & Hinj & Hsurj) Hnd].
  set (idx := notesContainerIndex s). set (size := Z.of_nat (length (ids s))) in *.
  assert (Hin : ∀ k, k ∈ JSMap.keys idx → 1 ≤ k ≤ size).
  { intros k. fold idx in Hkeys. rewrite Hkeys, elem_of_seqZ. lia. }
  pose (P := λ (done : list Z) (s' : Notepad),
          same_notes s s'
          ∧ ∀ n k, n ∈ notesContainer s' → k ∈ done →
                   JSMap.get k idx = Some (note_id n) →
                   data_note_index n = AttrNumber k
                   ∧ note_index_value n = Some k
                   ∧ note_index_max n = JSMap.size idx).
  destruct (for_each_progress P (JSMap.keys idx) indexNotes_turn) with (s := s)
    as (s' & E & Hs' & Hattr).
  - intros done k rest s1 Hl [Hs1 Hd].
    assert (Hk : k ∈ JSMap.keys idx) by (rewrite Hl; set_solver).
    destruct (Hrange k (Hin k Hk)) as (id & Hg & Hid).
    rewrite <- (same_notes_ids _ _ Hs1) in Hid.
    destruct (find_note _ _ Hid) as (i & ni & Hf & Hi & Hni).
    eexists. split.
    { eapply indexNotes_turn_found; [|done]. by rewrite (same_notes_index _ _ Hs1). }
    split.
    { eapply same_notes_trans; [done|].
      repeat split. simpl. apply fmap_alter_same, write_position_data. }
    simpl. intros n k' [j Hj]%list_elem_of_lookup Hk' Hg'.
    rewrite list_lookup_alter in Hj. case_decide as Hij.
    + subst j. rewrite Hi in Hj. simpl in Hj. injection Hj as <-. simpl in *.
      assert (k = k') as <-.
      { apply Hinj.
        * apply Hin. rewrite Hl. set_solver.
        * apply Hin. rewrite Hl. set_solver.
        * unfold idx in *. simpl in *. congruence. }
      by rewrite (same_notes_index _ _ Hs1).
    + apply elem_of_app in Hk' as [Hk'|Hk'].
      * apply (Hd n k'); [by eapply list_elem_of_lookup_2 | done | done].
      * apply list_elem_of_singleton in Hk' as ->.
        exfalso. apply Hij.
        assert (Hnd1 : NoDup (ids s1)) by (by rewrite (same_notes_ids _ _ Hs1)).
        eapply (NoDup_lookup _ i j (note_id n) Hnd1); unfold ids;
          rewrite list_lookup_fmap.
        -- rewrite Hi. simpl. unfold idx in Hg'. congruence.
        -- by rewrite Hj.
  - split; [apply same_notes_refl|]. intros n k _ Hk. by apply elem_of_nil in Hk.
  - exists s'. split; [by unfold indexNotes; unfold_monad|]. split; [done|].
    intros n Hn.
    assert (Hid : note_id n ∈ ids s).
    { rewrite <- (same_notes_ids _ _ Hs'). apply elem_of_ids. eauto. }
    destruct (Hsurj _ Hid) as (k & Hk & Hg).
    exists k. rewrite (same_notes_index _ _ Hs').
    destruct (Hattr n k) as (? & ? & ?); [done| |done|done].
    fold idx in Hkeys. rewrite Hkeys, elem_of_seqZ. lia.
Qed.

(** A page in step with distinct ids, none empty, is tidy once
    [#indexNotes] has run. *)
Lemma indexNotes_tidy s :
  in_step s → NoDup (ids s) → Forall (λ id, id ≠ "") (ids s) →
  ∃ s', indexNotes s = (Done tt, s') ∧ same_notes s s' ∧ tidy s'.
Proof.
  intros Hs Hnd Hne.
  destruct (indexNotes_shown s (in_step_bijection s Hs Hnd)) as (s' & E & Hs' & Hp).
  exists s'. split; [done|]. split; [done|].
  assert (Hstep : in_step s').
  { unfold in_step. destruct Hs' as (-> & -> & _). done. }
  assert (Hnd' : NoDup (ids s')) by (by rewrite (same_notes_ids _ _ Hs')).
  split; [done|]. split; [done|]. split; [by rewrite (same_notes_ids _ _ Hs')|].
  by apply shown_places.
Qed.

End PageFacts.

(** ** What the ordering methods do to a tidy page *)

Section TidyCalls.
Variable clock : nat → Z.
Implicit Types (s : Notepad) (k : Z) (id : string) (i j : nat).

(** An index with the keys 1..n that gives, for every place of [l], the id
    of the note at this place, is the numbering of [l]. *)
Lemma enumerate_ext (m : JSMap.t) (l : list NoteRecord) :
  JSMap.keys m = seqZ 1 (Z.of_nat (length l)) →
  (∀ (q : nat) y, l !! q = Some y → JSMap.get (Z.of_nat q + 1) m = Some (rec_id y)) →
  m = enumerate l.
Proof.
  intros Hk Hg. apply jsmap_ext.
  - by rewrite enumerate_keys.
  - rewrite Hk. apply NoDup_seqZ.
  - intros k. rewrite Hk, elem_of_seqZ. intros Hr.
    destruct (lookup_lt_is_Some_2 l (Z.to_nat (k - 1))) as [y Hy]; [lia|].
    replace k with (Z.of_nat (Z.to_nat (k - 1)) + 1) by lia.
    by rewrite (Hg _ _ Hy), (enumerate_get _ _ _ Hy).
Qed.

(** On a page whose notes have distinct ids, [getElementById] finds the
    note at a place by its id. *)
Lemma find_at s i n :
  NoDup (ids s) → notesContainer s !! i = Some n →
  list_find (λ x, note_id x = note_id n) (notesContainer s) = Some (i, n).
Proof.
  intros Hnd Hi. apply list_find_Some. split; [done|]. split; [done|].
  intros j y Hj Hlt E.
  assert (j = i); [|lia].
  apply (NoDup_lookup (ids s) _ _ (note_id n) Hnd); unfold ids; rewrite list_lookup_fmap.
  - rewrite Hj. simpl. by rewrite E.
  - by rewrite Hi.
Qed.

(** On a page whose notes show their places, the note of a position is
    found at this place. *)
Lemma find_place s j c :
  shows_places s → notesContainer s !! j = Some c →
  list_find (λ x, data_note_index x = AttrNumber (Z.of_nat j + 1)) (notesContainer s)
  = Some (j, c).
Proof.
  intros Hp Hj. apply list_find_Some. split; [done|].
  split; [by destruct (Hp j c Hj) as (-> & _)|].
  intros j' y Hj' Hlt E. destruct (Hp j' y Hj') as (E' & _).
  rewrite E' in E. injection E. lia.
Qed.



(** The places of a list after an element is taken out and put back. *)
Lemma lookup_put_at_delete {A} (l : list A) (i p q : nat) (x : A) :
  l !! i = Some x → (p < length l)%nat →
  put_at p x (delete i l) !! q
  = if decide (q = p) then Some x
    else if decide (p < q ≤ i)%nat then l !! (q - 1)%nat
    else if decide (i ≤ q < p)%nat then l !! (q + 1)%nat
    else l !! q.
Proof.
  intros Hi Hp. unfold put_at.
  assert (Hlen : length (take p (delete i l)) = p).
  { rewrite length_take, length_delete by (by rewrite Hi). lia. }
  destruct (decide (q < p)%nat) as [Hlt|Hge].
  - rewrite lookup_app_l by lia. rewrite lookup_take_lt by done.
    rewrite list_lookup_delete. repeat case_decide; try lia; try done.
    by replace (q + 1)%nat with (S q) by lia.
  - rewrite lookup_app_r by lia. rewrite Hlen.
    destruct (decide (q = p)) as [->|Hne].
    { by rewrite Nat.sub_diag. }
    replace (q - p)%nat with (S (q - p - 1)) by lia. simpl.
    rewrite lookup_drop, list_lookup_delete.
    repeat case_decide; try lia; f_equal; lia.
Qed.

(** [moveNote] up to its call of [#indexNotes], when the note to move and
    the note at the new position are found and are not the same note: the
    place where the note is put back. *)
Lemma moveNote_unfold_exact noteID old newIndex i note j current s :
  let new := if newIndex <=? JSMap.size (notesContainerIndex s)
             then newIndex else JSMap.size (notesContainerIndex s) in
  let j' := if (j <? i)%nat then j else (j - 1)%nat in
  let p := if new <? old then j' else S j' in
  list_find (λ x, note_id x = noteID) (notesContainer s) = Some (i, note) →
  list_find (λ x, data_note_index x = AttrNumber new) (notesContainer s)
    = Some (j, current) →
  j ≠ i →
  moveNote noteID old newIndex s
  = indexNotes (set_notesContainerIndex (moved_index old new (notesContainerIndex s))
                  (set_notesContainer
                     (put_at p (moved_note new note) (delete i (notesContainer s))) s)).
Proof.
  intros new j' p Hnote Hcurrent Hji.
  unfold moveNote, getElementById, querySelector_note_index, index_size, index_get,
    index_set, remove_child.
  unfold_monad. rewrite Hnote. cbn [fst snd]. fold new. rewrite Hcurrent.
  cbn [fmap option_fmap option_map fst snd]. unfold moved_index, p, j'.
  unfold ref_after_remove. destruct (Nat.eqb_spec j i) as [->|_]; [done|].
  destruct (Z.ltb_spec new old) as [Hlt|Hge].
  - by destruct (j <? i)%nat.
  - destruct (j <? i)%nat; simpl.
    all: match goal with
         | |- context [(?a <? ?b)%nat] => destruct (Nat.ltb_spec a b)
         end; simpl; [done|].
    all: unfold put_at; by rewrite take_ge, drop_ge by lia.
Qed.

(** [moveNote] on a tidy page, for a note that changes position. *)
Lemma moveNote_tidy (i : nat) (n : NoteElement) (newIndex : Z) (s : Notepad) :
  tidy s →
  notesContainer s !! i = Some n →
  1 ≤ newIndex →
  Z.min newIndex (Z.of_nat (length (notesContainer s))) ≠ Z.of_nat i + 1 →
  ∃ s', moveNote (note_id n) (Z.of_nat i + 1) newIndex s = (Done tt, s')
        ∧ tidy s'
        ∧ note_data <$> notesContainer s'
          = put_at (Z.to_nat (Z.min newIndex (Z.of_nat (length (notesContainer s))) - 1))
              (note_data n) (delete i (note_data <$> notesContainer s)).
Proof.
  intros (Hs & Hnd & Hne & Hp) Hi Hnew1 Hdiff.
  pose proof (find_at s i n Hnd Hi) as Hfind.
  pose proof (in_step_size s Hs) as Hsize.
  pose proof (lookup_lt_Some _ _ _ Hi) as Hlt.
  set (len := length (notesContainer s)) in *.
  set (new := Z.min newIndex (Z.of_nat len)) in *.
  set (old := Z.of_nat i + 1) in *.
  set (j := Z.to_nat (new - 1)).
  assert (Hn : 1 ≤ new ≤ Z.of_nat len) by (unfold new; lia).
  assert (Hclamp : (if newIndex <=? JSMap.size (notesContainerIndex s)
                    then newIndex else JSMap.size (notesContainerIndex s)) = new).
  { rewrite Hsize. unfold new. destruct (Z.leb_spec newIndex (Z.of_nat len)); lia. }
  destruct (lookup_lt_is_Some_2 (notesContainer s) j) as [current Hj]; [fold len; lia|].
  pose proof (find_place s j current Hp Hj) as Hcur.
  replace (Z.of_nat j + 1) with new in Hcur by lia.
  assert (Hji : j ≠ i) by lia.
  pose proof (moveNote_unfold_exact (note_id n) old newIndex i n j current s) as E0.
  cbv zeta in E0. rewrite Hclamp in E0. specialize (E0 Hfind Hcur Hji).
  assert (Hplace : (if new <? old then (if (j <? i)%nat then j else (j - 1)%nat)
                    else S (if (j <? i)%nat then j else (j - 1)%nat)) = j).
  { destruct (Z.ltb_spec new old); destruct (Nat.ltb_spec j i); lia. }
  rewrite Hplace in E0.
  set (s0 := set_notesContainerIndex _ _) in E0.
  set (data := note_data <$> notesContainer s) in *.
  assert (Hdata : note_data <$> notesContainer s0 = put_at j (note_data n) (delete i data)).
  { unfold s0, put_at, data. simpl.
    by rewrite fmap_app, fmap_cons, fmap_take, fmap_drop, list_fmap_delete. }
  assert (Hdi : data !! i = Some (note_data n)).
  { unfold data. by rewrite list_lookup_fmap, Hi. }
  assert (Hdlen : length data = len) by apply length_fmap.
  assert (Hget : ∀ (q : nat) y, data !! q = Some y →
            JSMap.get (Z.of_nat q + 1) (notesContainerIndex s) = Some (rec_id y)).
  { intros q y Hq. rewrite Hs. by apply enumerate_get. }
  assert (Hkeys : JSMap.keys (notesContainerIndex s) = seqZ 1 (Z.of_nat len)).
  { rewrite (in_step_keys s Hs). unfold ids. by rewrite length_fmap. }
  destruct (moved_index_get old new (Z.of_nat len) (notesContainerIndex s) Hkeys
              ltac:(lia) Hn) as [Hk' Hg'].
  assert (Hlen0 : length (put_at j (note_data n) (delete i data)) = len).
  { unfold put_at. rewrite length_app, length_cons, length_take, length_drop,
      length_delete by (by rewrite Hdi). lia. }
  assert (Hs0 : in_step s0).
  { unfold in_step. rewrite Hdata. unfold s0. simpl. apply enumerate_ext.
    - by rewrite Hk', Hlen0.
    - intros q y Hq. rewrite Hg'.
      rewrite (lookup_put_at_delete data i j q (note_data n) Hdi) in Hq by lia.
      repeat case_decide; try lia.
      + injection Hq as <-. by apply Hget.
      + replace (Z.of_nat q + 1 - 1) with (Z.of_nat (q - 1) + 1) by lia. by apply Hget.
      + replace (Z.of_nat q + 1 + 1) with (Z.of_nat (q + 1) + 1) by lia. by apply Hget.
      + by apply Hget. }
  assert (Hids0 : ids s0 ≡ₚ ids s).
  { rewrite <- !ids_data. fold data. rewrite Hdata. unfold put_at.
    rewrite fmap_app, fmap_cons, fmap_take, fmap_drop, insert_middle_perm.
    rewrite list_fmap_delete. symmetry. apply delete_Permutation.
    by rewrite list_lookup_fmap, Hdi. }
  rewrite E0.
  destruct (indexNotes_tidy s0) as (s' & E & Hs' & Ht);
    [done | by rewrite Hids0 | by rewrite Hids0 |].
  exists s'. split; [done|]. split; [done|]. destruct Hs' as (-> & _). done.
Qed.

(** [newNote] on a tidy page, for an id that no note has. *)
Lemma newNote_tidy (noteProperties : NoteProperties) (s : Notepad) :
  tidy s →
  newNote_id clock noteProperties s ∉ ids s →
  ∃ s', newNote clock noteProperties s = (Done tt, s')
        ∧ tidy s'
        ∧ note_data <$> notesContainer s'
          = (note_data <$> notesContainer s)
            ++ [mkNoteRecord (newNote_id clock noteProperties s)
                  (default Defaults.noteTitle (prop_title noteProperties))
                  (default "" (prop_content noteProperties))
                  (Color.accentColor_of (prop_accentColor noteProperties))].
Proof.
  intros (Hs & Hnd & Hne & Hp) Hfresh. rewrite newNote_unfold.
  set (s0 := newNote_before_index clock noteProperties s).
  set (x := mkNoteRecord _ _ _ _).
  assert (Hdata : note_data <$> notesContainer s0 = (note_data <$> notesContainer s) ++ [x]).
  { unfold s0. simpl. by rewrite fmap_app. }
  assert (Hids : ids s0 = ids s ++ [newNote_id clock noteProperties s]).
  { unfold ids, s0. simpl. by rewrite fmap_app. }
  assert (Hs0 : in_step s0).
  { unfold in_step. rewrite Hdata, enumerate_snoc, length_fmap. unfold s0. simpl.
    rewrite (in_step_size s Hs), <- Hs. apply JSMapFacts.set_new.
    rewrite (in_step_keys s Hs), elem_of_seqZ. unfold ids. rewrite length_fmap. lia. }
  destruct (indexNotes_tidy s0) as (s' & E & Hs' & Ht); [done| |  |].
  - rewrite Hids. apply NoDup_app. split; [done|]. split; [|apply NoDup_singleton].
    by intros y Hy ->%list_elem_of_singleton.
  - rewrite Hids. apply Forall_app. split; [done|].
    apply Forall_singleton, newNote_id_nonempty.
  - exists s'. split; [done|]. split; [done|]. destruct Hs' as (-> & _). done.
Qed.

(** [deleteNote] on a tidy page, for the note at a place. *)
Lemma deleteNote_tidy (i : nat) (n : NoteElement) (s : Notepad) :
  tidy s →
  notesContainer s !! i = Some n →
  ∃ s', deleteNote (note_id n) s = (Done tt, s')
        ∧ tidy s'
        ∧ note_data <$> notesContainer s' = delete i (note_data <$> notesContainer s).
Proof.
  intros (Hs & Hnd & Hne & Hp) Hi.
  pose proof (find_at s i n Hnd Hi) as Hfind.
  destruct (Hp i n Hi) as (Hattr & _).
  pose proof (in_step_size s Hs) as Hsize.
  pose proof (lookup_lt_Some _ _ _ Hi) as Hlt.
  set (len := length (notesContainer s)) in *.
  set (idx := notesContainerIndex s) in *.
  set (s0 := set_notesContainerIndex
               (fold_left (rebuild_step idx (AttrNumber (Z.of_nat i + 1)))
                  (seqZ 1 (JSMap.size idx)) JSMap.empty)
               (set_notesContainer (delete i (notesContainer s)) s)).
  assert (E0 : deleteNote (note_id n) s = indexNotes s0).
  { unfold deleteNote, getElementById, remove_child. unfold_monad.
    rewrite Hfind. simpl. rewrite Hattr. done. }
  assert (Hget : ∀ (q : nat) y, notesContainer s !! q = Some y →
            JSMap.get (Z.of_nat q + 1) idx = Some (note_id y)).
  { intros q y Hq. by apply in_step_get. }
  assert (Htruthy : ∀ k, 1 ≤ k ≤ Z.of_nat len → truthy (JSMap.get k idx) = true).
  { intros k Hk.
    destruct (lookup_lt_is_Some_2 (notesContainer s) (Z.to_nat (k - 1))) as [y Hy];
      [fold len; lia|].
    replace k with (Z.of_nat (Z.to_nat (k - 1)) + 1) by lia. rewrite (Hget _ _ Hy).
    simpl. rewrite Forall_forall in Hne.
    assert (note_id y ≠ "") as Hy'.
    { apply Hne, elem_of_ids. exists y. split; [by eapply list_elem_of_lookup_2 | done]. }
    by destruct (note_id y). }
  destruct (rebuild_prefix idx (Z.of_nat i + 1) (Z.of_nat len) ltac:(lia) Htruthy len
              ltac:(lia)) as [Hkeys Hvals].
  assert (Hs0 : in_step s0).
  { unfold in_step, s0. simpl. rewrite Hsize. apply enumerate_ext.
    - rewrite Hkeys, length_fmap, length_delete by (by rewrite Hi). fold len.
      destruct (Z.ltb_spec (Z.of_nat len) (Z.of_nat i + 1)); [lia|]. f_equal. lia.
    - intros q y Hq. rewrite list_lookup_fmap in Hq.
      destruct (delete i (notesContainer s) !! q) as [y'|] eqn:Hq'; [|done].
      injection Hq as <-. rewrite Hvals.
      rewrite list_lookup_delete in Hq'. apply lookup_lt_Some in Hq' as Hq''.
      fold len in Hq''.
      repeat case_decide; try lia.
      + by apply Hget.
      + replace (Z.of_nat q + 1 + 1) with (Z.of_nat (S q) + 1) by lia. by apply Hget. }
  rewrite E0.
  destruct (indexNotes_tidy s0) as (s' & E & Hs' & Ht); [done| | |].
  - unfold ids, s0. simpl. rewrite list_fmap_delete.
    eapply sublist_NoDup; [done | apply sublist_delete].
  - unfold ids, s0. simpl. rewrite list_fmap_delete. by apply Forall_delete.
  - exists s'. split; [done|]. split; [done|]. destruct Hs' as (-> & _).
    unfold s0. simpl. by rewrite list_fmap_delete.
Qed.

(** The listener calls [moveNote] for the note whose input changed, from
    the position this note shows. *)
Lemma moveNoteControl_change_call (target : nat) (n : NoteElement) (value : Z) s :
  shows_places s → notesContainer s !! target = Some n →
  moveNoteControl_change target (Some value) s
  = moveNote (note_id n) (Z.of_nat target + 1) value s.
Proof.
  intros Hp Hi. destruct (Hp target n Hi) as (_ & Hv & _).
  unfold moveNoteControl_change, querySelector_note_index. unfold_monad.
  rewrite Hi, Hv. by rewrite (find_place s target n Hp Hi).
Qed.


(** X13. On a tidy page, [deleteNote] of the note at a place takes this
    note off the page and nothing else: the other notes keep their data and
    their order, and the page is tidy again, so the notes after the one
    deleted show a position one lower. *)
Theorem deleteNote_removes (i : nat) (n : NoteElement) (s : Notepad) :
  tidy s →
  notesContainer s !! i = Some n →
  ∃ s', deleteNote (note_id n) s = (Done tt, s')
        ∧ tidy s'
        ∧ note_data <$> notesContainer s' = delete i (note_data <$> notesContainer s).
Proof. apply deleteNote_tidy. Qed.

(** X14. On a tidy page, [moveNote] of the note at a place, from its
    position to another position from 1 (a position beyond the last stands
    for the last), takes the note out and puts it back at the new position:
    the other notes keep their data and their relative order, and the page
    is tidy again, so every note shows its new place. *)
Theorem moveNote_puts_at (i : nat) (n : NoteElement) (newIndex : Z) (s : Notepad) :
  tidy s →
  notesContainer s !! i = Some n →
  1 ≤ newIndex →
  Z.min newIndex (Z.of_nat (length (notesContainer s))) ≠ Z.of_nat i + 1 →
  ∃ s', moveNote (note_id n) (Z.of_nat i + 1) newIndex s = (Done tt, s')
        ∧ tidy s'
        ∧ note_data <$> notesContainer s'
          = put_at (Z.to_nat (Z.min newIndex (Z.of_nat (length (notesContainer s))) - 1))
              (note_data n) (delete i (note_data <$> notesContainer s)).
Proof. apply moveNote_tidy. Qed.

(** X15. On a tidy page, a position from 1 typed into the position input of
    a note moves this very note: the listener reads the old position from
    the input, finds the id of the note that shows it, and [moveNote] puts
    the note at the position typed, or last for a position beyond the last;
    the page is tidy again.  The position typed is one the note does not
    have already.  An empty value changes nothing. *)
Theorem moveNoteControl_change_moves (target : nat) (n : NoteElement) (value : Z)
    (s : Notepad) :
  tidy s →
  notesContainer s !! target = Some n →
  1 ≤ value →
  Z.min value (Z.of_nat (length (notesContainer s))) ≠ Z.of_nat target + 1 →
  (∃ s', moveNoteControl_change target (Some value) s = (Done tt, s')
         ∧ tidy s'
         ∧ note_data <$> notesContainer s'
           = put_at (Z.to_nat (Z.min value (Z.of_nat (length (notesContainer s))) - 1))
               (note_data n) (delete target (note_data <$> notesContainer s)))
  ∧ moveNoteControl_change target None s = (Done tt, s).
Proof.
  intros Ht Hi Hv Hd. split.
  - rewrite (moveNoteControl_change_call target n value s); [|by destruct Ht as (_&_&_&?)|done].
    by apply moveNote_tidy.
  - unfold moveNoteControl_change. unfold_monad. by destruct (_ !! _).
Qed.

End TidyCalls.

Section OutsideTidy.
Implicit Types (s : Notepad) (k : Z) (id : string).






End OutsideTidy.

Module TidySamples.
Import Samples MoreSamples.

Lemma abc_notepad_tidy : tidy abc_notepad.
Proof.
  split; [by vm_compute|]. split; [apply (bool_decide_unpack _); by vm_compute|].
  split; [apply (bool_decide_unpack _); by vm_compute|].
  intros i n Hi. vm_compute in Hi.
  destruct i as [|[|[|i]]]; simplify_eq; by vm_compute.
Qed.



Lemma deleteNote_removes_witness :
  ∃ s', deleteNote (note_id note_b) abc_notepad = (Done tt, s')
        ∧ tidy s'
        ∧ note_data <$> notesContainer s'
          = delete 1%nat (note_data <$> notesContainer abc_notepad).
Proof.
  apply (deleteNote_removes 1 note_b abc_notepad).
  - apply abc_notepad_tidy.
  - reflexivity.
Defined.

Lemma moveNote_puts_at_witness :
  ∃ s', moveNote (note_id note_a) (Z.of_nat 0 + 1) 7 abc_notepad = (Done tt, s')
        ∧ tidy s'
        ∧ note_data <$> notesContainer s'
          = put_at (Z.to_nat (Z.min 7 (Z.of_nat (length (notesContainer abc_notepad))) - 1))
              (note_data note_a) (delete 0%nat (note_data <$> notesContainer abc_notepad)).
Proof.
  apply (moveNote_puts_at 0 note_a 7 abc_notepad).
  - apply abc_notepad_tidy.
  - reflexivity.
  - lia.
  - by vm_compute.
Defined.

Lemma moveNoteControl_change_moves_witness :
  (∃ s', moveNoteControl_change 2 (Some 1) abc_notepad = (Done tt, s')
         ∧ tidy s'
         ∧ note_data <$> notesContainer s'
           = put_at (Z.to_nat (Z.min 1 (Z.of_nat (length (notesContainer abc_notepad))) - 1))
               (note_data note_c) (delete 2%nat (note_data <$> notesContainer abc_notepad)))
  ∧ moveNoteControl_change 2 None abc_notepad = (Done tt, abc_notepad).
Proof.
  apply (moveNoteControl_change_moves 2 note_c 1 abc_notepad).
  - apply abc_notepad_tidy.
  - reflexivity.
  - lia.
  - by vm_compute.
Defined.



End TidySamples.

(** ** moveNote outside a change of position *)

Section MoveSlips.
Implicit Types (s : Notepad) (k old new : Z) (id : string) (m : JSMap.t)
  (i j : nat).

(** [moveNote] up to its call of [#indexNotes], when the note at the new
    position is the note to move: the note is put back last. *)
Lemma moveNote_unfold_same noteID old newIndex i note current s :
  let new := if newIndex <=? JSMap.size (notesContainerIndex s)
             then newIndex else JSMap.size (notesContainerIndex s) in
  list_find (λ x, note_id x = noteID) (notesContainer s) = Some (i, note) →
  list_find (λ x, data_note_index x = AttrNumber new) (notesContainer s)
    = Some (i, current) →
  ¬ new < old →
  moveNote noteID old newIndex s
  = indexNotes (set_notesContainerIndex (moved_index old new (notesContainerIndex s))
                  (set_notesContainer
                     (delete i (notesContainer s) ++ [moved_note new note]) s)).
Proof.
  intros new Hnote Hcurrent Hge.
  unfold moveNote, getElementById, querySelector_note_index, index_size, index_get,
    index_set, remove_child.
  unfold_monad. rewrite Hnote. cbn [fst snd]. fold new. rewrite Hcurrent.
  cbn [fmap option_fmap option_map fst snd]. unfold moved_index, ref_after_remove.
  rewrite Nat.eqb_refl. by destruct (Z.ltb_spec new old); [lia|].
Qed.


(** A page that is put back in the order of its index stays a bijection. *)
Lemma moved_bijection s s0 :
  tidy s → ids s0 ≡ₚ ids s →
  (∀ k, 1 ≤ k ≤ Z.of_nat (length (ids s)) →
        JSMap.get k (notesContainerIndex s0) = JSMap.get k (notesContainerIndex s)) →
  JSMap.keys (notesContainerIndex s0) = JSMap.keys (notesContainerIndex s) →
  index_bijection s0.
Proof.
  intros Ht Hperm Hget Hkeys.
  destruct (tidy_index_ok s Ht) as ([(Hk & Hr & Hi & Hs) Hnd] & _).
  split; [|by rewrite Hperm].
  apply (bijection_onto_perm _ (ids s)); [done|]. unfold bijection_onto.
  rewrite Hkeys. split; [done|]. split; [|split].
  - intros k Hk'. rewrite Hget by done. by apply Hr.
  - intros k k' Hk1 Hk2. rewrite !Hget by done. by apply Hi.
  - intros id Hid. destruct (Hs id Hid) as (k & Hk' & E). exists k.
    split; [done|]. by rewrite Hget.
Qed.

(** X18. On a tidy page, [moveNote] of a note to the position it has (also
    as the last note, to a position beyond the last) leaves the index as it
    is but not the page: the note is taken out and put back after all the
    others, since the sibling is read from the note that was taken out.
    Unless the note was the last one, the page is then out of step with the
    index. *)
Theorem moveNote_same_position_appends (i : nat) (n : NoteElement) (newIndex : Z)
    (s : Notepad) :
  tidy s →
  notesContainer s !! i = Some n →
  Z.min newIndex (Z.of_nat (length (notesContainer s))) = Z.of_nat i + 1 →
  ∃ s', moveNote (note_id n) (Z.of_nat i + 1) newIndex s = (Done tt, s')
        ∧ notesContainerIndex s' = notesContainerIndex s
        ∧ note_data <$> notesContainer s'
          = delete i (note_data <$> notesContainer s) ++ [note_data n]
        ∧ ((S i < length (notesContainer s))%nat → ¬ in_step s').
Proof.
  intros Ht Hi Hmin. pose proof Ht as (Hs & Hnd & Hne & Hp).
  pose proof (find_at s i n Hnd Hi) as Hfind.
  pose proof (in_step_size s Hs) as Hsize.
  pose proof (lookup_lt_Some _ _ _ Hi) as Hlt.
  set (len := length (notesContainer s)) in *.
  set (old := Z.of_nat i + 1) in *.
  assert (Hclamp : (if newIndex <=? JSMap.size (notesContainerIndex s)
                    then newIndex else JSMap.size (notesContainerIndex s)) = old).
  { rewrite Hsize. destruct (Z.leb_spec newIndex (Z.of_nat len)); lia. }
  pose proof (find_place s i n Hp Hi) as Hcur. fold old in Hcur.
  pose proof (moveNote_unfold_same (note_id n) old newIndex i n n s) as E0.
  cbv zeta in E0. rewrite Hclamp in E0. specialize (E0 Hfind Hcur ltac:(lia)).
  assert (Hkeys : JSMap.keys (notesContainerIndex s) = seqZ 1 (Z.of_nat len)).
  { rewrite (in_step_keys s Hs). unfold ids. by rewrite length_fmap. }
  destruct (moved_index_get old old (Z.of_nat len) (notesContainerIndex s) Hkeys
              ltac:(lia) ltac:(lia)) as [Hk' Hg'].
  assert (Hidx : moved_index old old (notesContainerIndex s) = notesContainerIndex s).
  { apply jsmap_ext; [by rewrite Hk', Hkeys | rewrite Hk'; apply NoDup_seqZ |].
    intros k _. rewrite Hg'. repeat case_decide; try lia; by subst. }
  rewrite Hidx in E0.
  set (s0 := set_notesContainerIndex _ _) in E0.
  assert (Hids0 : ids s0 ≡ₚ ids s).
  { unfold ids, s0. simpl. rewrite fmap_app, list_fmap_delete. simpl.
    rewrite <- Permutation_cons_append. symmetry. apply delete_Permutation.
    by rewrite list_lookup_fmap, Hi. }
  destruct (indexNotes_shown s0) as (s' & E & Hs' & _).
  { by apply (moved_bijection s). }
  exists s'. split; [by rewrite E0|]. split; [by rewrite (same_notes_index _ _ Hs')|].
  assert (Hdata : note_data <$> notesContainer s'
                  = delete i (note_data <$> notesContainer s) ++ [note_data n]).
  { destruct Hs' as (-> & _). unfold s0. simpl.
    by rewrite fmap_app, list_fmap_delete. }
  split; [done|]. intros Hnotlast Hstep.
  unfold in_step in Hstep. rewrite (same_notes_index _ _ Hs') in Hstep.
  unfold s0 in Hstep. simpl in Hstep. rewrite Hs, Hdata in Hstep.
  apply (f_equal JSMap.values) in Hstep. unfold JSMap.values, enumerate in Hstep.
  rewrite !fmap_imap in Hstep.
  assert (Hval : ∀ l : list NoteRecord,
            imap (λ (i0 : nat) (x : NoteRecord), (Z.of_nat i0 + 1, Some (rec_id x)).2) l
            = Some <$> (rec_id <$> l)).
  { intros l. rewrite <- list_fmap_compose. apply list_eq. intros q.
    rewrite list_lookup_imap, list_lookup_fmap. by destruct (l !! q). }
  unfold compose in Hstep. rewrite !Hval in Hstep.
  apply (inj (fmap Some)) in Hstep.
  rewrite fmap_app, list_fmap_delete, ids_data in Hstep. simpl in Hstep.
  assert (Hith : ids s !! i = Some (note_id n)).
  { unfold ids. by rewrite list_lookup_fmap, Hi. }
  assert (Hlen' : length (delete i (ids s)) = (len - 1)%nat).
  { rewrite length_delete by (by rewrite Hith). unfold ids. by rewrite length_fmap. }
  assert (Hlast : (delete i (ids s) ++ [note_id n]) !! (len - 1)%nat = Some (note_id n)).
  { rewrite lookup_app_r by lia. by rewrite Hlen', Nat.sub_diag. }
  rewrite <- Hstep in Hlast.
  pose proof (NoDup_lookup _ _ _ _ Hnd Hlast Hith). lia.
Qed.








End MoveSlips.

Module SlipSamples.
Import Samples MoreSamples.

Lemma moveNote_same_position_appends_witness :
  ∃ s', moveNote (note_id note_a) (Z.of_nat 0 + 1) 1 abc_notepad = (Done tt, s')
        ∧ notesContainerIndex s' = notesContainerIndex abc_notepad
        ∧ note_data <$> notesContainer s'
          = delete 0%nat (note_data <$> notesContainer abc_notepad) ++ [note_data note_a]
        ∧ ((1 < length (notesContainer abc_notepad))%nat → ¬ in_step s').
Proof.
  apply (moveNote_same_position_appends 0 note_a 1 abc_notepad).
  - apply TidySamples.abc_notepad_tidy.
  - reflexivity.
  - reflexivity.
Defined.


End SlipSamples.

(** ** The controls keep the page tidy *)

Section ControlsFacts.
Variable clock : nat → Z.
Implicit Types (s : Notepad) (i : nat).

(** A change of the notes that keeps the ids and what the notes show of
    their place keeps the page tidy. *)
Lemma tidy_alter (f : NoteElement → NoteElement) i s :
  (∀ n, note_id (f n) = note_id n) →
  (∀ n, data_note_index (f n) = data_note_index n) →
  (∀ n, note_index_value (f n) = note_index_value n) →
  (∀ n, note_index_max (f n) = note_index_max n) →
  tidy s → tidy (set_notesContainer (alter f i (notesContainer s)) s).
Proof.
  intros Hid Ha Hv Hm (Hs & Hnd & Hne & Hp).
  assert (Hids : ids (set_notesContainer (alter f i (notesContainer s)) s) = ids s).
  { unfold ids. simpl. by apply fmap_alter_same. }
  split; [|split; [by rewrite Hids | split; [by rewrite Hids|]]].
  - unfold in_step. simpl. rewrite Hs. unfold enumerate.
    apply list_eq. intros q. rewrite !list_lookup_imap, !list_lookup_fmap.
    rewrite list_lookup_alter. case_decide; [subst q|done].
    destruct (notesContainer s !! i); simpl; [|done]. by rewrite Hid.
  - intros q n. simpl. rewrite list_lookup_alter, length_alter.
    case_decide; [subst q|by apply Hp].
    destruct (notesContainer s !! i) as [x|] eqn:Hx; [|done].
    intros [= <-]. rewrite Ha, Hv, Hm. by apply Hp.
Qed.

(** An expected event, on a tidy page, does not throw and leaves a tidy
    page. *)
Lemma ui_event_tidy (event : ui_event) s :
  tidy s → ui_event_expected clock s event →
  ∃ s', ui_event_listener clock event s = (Done tt, s') ∧ tidy s'.
Proof.
  intros Ht He. destruct event as [|target|target [value|]|target|e];
    cbn [ui_event_listener ui_event_expected] in *.
  - destruct (newNote_tidy clock no_properties s Ht He) as (s' & ? & ? & _). eauto.
  - unfold_monad. destruct (notesContainer s !! target) as [n|] eqn:Hn; [|eauto].
    assert (Hid : truthy (Some (note_id n)) = true).
    { destruct Ht as (_ & _ & Hne & _). rewrite Forall_forall in Hne.
      assert (note_id n ≠ "") as Hx.
      { apply Hne, elem_of_ids. exists n. split; [by eapply list_elem_of_lookup_2|done]. }
      simpl. by destruct (note_id n). }
    rewrite Hid.
    destruct (deleteNote_tidy target n s Ht Hn) as (s' & ? & ? & _). eauto.
  - destruct (notesContainer s !! target) as [n|] eqn:Hn.
    + destruct He as [Hv Hd]; [by eapply lookup_lt_Some|].
      rewrite (moveNoteControl_change_call target n value s); [|by destruct Ht as (_&_&_&?)|done].
      destruct (moveNote_tidy target n value s Ht Hn Hv Hd) as (s' & ? & ? & _). eauto.
    + exists s. split; [|done]. unfold moveNoteControl_change. unfold_monad. by rewrite Hn.
  - exists s. split; [|done]. unfold moveNoteControl_change. unfold_monad.
    by destruct (_ !! _).
  - unfold_monad. destruct (notesContainer s !! target) as [n|] eqn:Hn; [|eauto].
    unfold changeNoteAccentColor, getElementById, update_child. unfold_monad.
    destruct Ht as (Hs & Hnd & Hne & Hp).
    rewrite (find_at s target n Hnd Hn). simpl. eexists. split; [done|].
    by apply tidy_alter.
  - unfold_monad. eexists. split; [done|].
    destruct e as [text|i text|i text]; simpl; [by destruct Ht as (?&?&?&?)|..];
      by apply tidy_alter.
Qed.

(** X20. Whatever the user does with the controls of the notes, the page
    stays tidy and no listener throws: on a tidy page, along any sequence
    of notes added, notes deleted, positions typed, colours changed and
    texts edited, as long as every generated id is new and every position
    typed is at least 1 and not the position the note has, each listener
    returns normally and leaves distinct ids, the index in the order of the
    page, and on every note its place and the number of notes. *)
Theorem controls_keep_tidy (events : list ui_event) (s : Notepad) :
  tidy s →
  ui_events_expected clock s events →
  Forall (λ r, r.1 = Done tt ∧ tidy r.2) (ui_events_run clock events s).
Proof.
  revert s. induction events as [|event events IH]; intros s Ht He; [by constructor|].
  destruct He as [He1 He2]. simpl.
  destruct (ui_event_tidy event s Ht He1) as (s' & E & Ht').
  unfold state_after in *. rewrite E in *. constructor; [done|]. by apply IH.
Qed.

End ControlsFacts.

Module ControlsSamples.
Import Samples MoreSamples.

Lemma controls_keep_tidy_witness :
  Forall (λ r, r.1 = Done tt ∧ tidy r.2)
    (ui_events_run sample_clock sample_session abc_notepad).
Proof.
  apply (controls_keep_tidy sample_clock sample_session abc_notepad).
  - apply TidySamples.abc_notepad_tidy.
  - vm_compute. repeat split; try done; try lia.
    intros H. repeat (apply elem_of_cons in H as [H|H]; [done|]).
    by apply elem_of_nil in H.
Defined.

End ControlsSamples.

(** ** The accent colours and the palette *)

Section PaletteFacts.
Variable clock : nat → Z.
Implicit Types (s : Notepad).

Lemma checked_color_plain c : checked_color c → plain_color c.
Proof.
  unfold checked_color, plain_color, Color.accentColor_of.
  change (to_id (Some c)) with c.
  destruct (truthy (Some c) && Color.hexColorRegex_test c) eqn:E; [|intros <-; by left].
  intros H. right. apply andb_true_iff in E as [_ E].
  by apply ColorFacts.hexColorRegex_test_spec in E.
Qed.


Lemma palette_ok_same_notes s s' : same_notes s s' → palette_ok s → palette_ok s'.
Proof.
  intros (Hd & _ & Hc & _) (Hnd & He & Hn). unfold palette_ok. rewrite Hc.
  split; [done|]. split; [done|].
  assert (H : Forall (λ x, rec_accentColor x ∈ accentColors s)
                (note_data <$> notesContainer s')).
  { rewrite Hd. apply Forall_fmap. eapply Forall_impl; [done|]. by intros n ?. }
  apply Forall_fmap in H. eapply Forall_impl; [done|]. by intros n ?.
Qed.

Lemma palette_ok_indexNotes s : palette_ok s → palette_ok (indexNotes s).2.
Proof. apply palette_ok_same_notes, indexNotes_same_notes. Qed.

Lemma palette_ok_newNote noteProperties s :
  palette_ok s → palette_ok (state_after (newNote clock noteProperties) s).
Proof.
  intros (Hnd & He & Hn). unfold state_after. rewrite newNote_unfold.
  apply palette_ok_indexNotes. unfold palette_ok. simpl.
  set (c := Color.accentColor_of _). case_bool_decide as Hc.
  - split; [done|]. split; [done|]. apply Forall_app. split; [done|].
    by apply Forall_singleton.
  - split.
    { apply NoDup_app. split; [done|]. split; [|apply NoDup_singleton].
      by intros x Hx ->%list_elem_of_singleton. }
    split; [set_solver|]. apply Forall_app. split.
    + eapply Forall_impl; [done|]. intros n ?. set_solver.
    + apply Forall_singleton. simpl. set_solver.
Qed.

Lemma palette_ok_deleteNote noteID s :
  palette_ok s → palette_ok (state_after (deleteNote noteID) s).
Proof.
  intros (Hnd & He & Hn). unfold deleteNote, getElementById, remove_child.
  unfold_monad. destruct (list_find _ _) as [[i el]|] eqn:E; simpl; [|done].
  apply palette_ok_indexNotes.
  destruct (parseInt _); repeat split; simpl; try done; by apply Forall_delete.
Qed.

Lemma palette_ok_moveNote noteID old new s :
  palette_ok s → palette_ok (state_after (moveNote noteID old new) s).
Proof.
  intros (Hnd & He & Hn). unfold moveNote, getElementById, querySelector_note_index,
    index_size, index_get, index_set, remove_child, insertBefore, nextSibling,
    append_child.
  unfold_monad. destruct (list_find _ _) as [[i note]|] eqn:E; simpl; [|done].
  apply list_find_Some in E as (Hi & _ & _).
  assert (Hnote : data_accent_color note ∈ accentColors s).
  { rewrite Forall_lookup in Hn. apply (Hn i note Hi). }
  assert (HD : Forall (λ n, data_accent_color n ∈ accentColors s)
                 (delete i (notesContainer s))) by (by apply Forall_delete).
  repeat case_match; simplify_eq/=.
  all: try (repeat split; simpl; done).
  all: try apply palette_ok_indexNotes.
  all: repeat split; simpl; try done.
  all: rewrite ?Forall_app, ?Forall_cons; repeat split; try done.
  all: try (by apply Forall_take); try (by apply Forall_drop).
Qed.

Lemma palette_ok_changeNoteAccentColor noteID s :
  palette_ok s → palette_ok (state_after (changeNoteAccentColor noteID) s).
Proof.
  intros (Hnd & He & Hn). unfold changeNoteAccentColor, getElementById, update_child.
  unfold_monad. destruct (list_find _ _) as [[i el]|] eqn:E; simpl; [|done].
  split; [done|]. split; [done|]. simpl.
  assert (Hnext : ∀ k : nat,
            (if truthy (accentColors s !! k) then to_id (accentColors s !! k) else "")
            ∈ accentColors s).
  { intros k. destruct (accentColors s !! k) as [c|] eqn:Ek; [|done].
    destruct (truthy (Some c)); [|done]. simpl. by eapply list_elem_of_lookup_2. }
  apply Forall_alter; [done|]. intros n Hi _. simpl.
  destruct (list_find _ (accentColors s)) as [[ci c]|]; [case_bool_decide|];
    apply Hnext.
Qed.

Lemma defaults_palette : NoDup Defaults.accentColors ∧ "" ∈ Defaults.accentColors.
Proof. split; [apply (bool_decide_unpack _); by vm_compute | set_solver]. Qed.

(** The note [newNote] adds to an empty page, without properties, has no
    colour. *)
Lemma newNote_first_colour s :
  notesContainer s = [] →
  Forall (λ n, data_accent_color n = "")
    (notesContainer (state_after (newNote clock no_properties) s)).
Proof.
  intros Hs. unfold state_after. rewrite newNote_unfold.
  destruct (indexNotes_same_notes (newNote_before_index clock no_properties s)) as [Hd _].
  unfold state_after in Hd. simpl in Hd. rewrite Hs in Hd. simpl in Hd.
  assert (H : Forall (λ x, rec_accentColor x = "")
                (note_data <$> notesContainer
                   (indexNotes (newNote_before_index clock no_properties s)).2)).
  { rewrite Hd. by apply Forall_singleton. }
  apply Forall_fmap in H. eapply Forall_impl; [done|]. by intros n ?.
Qed.

Lemma palette_ok_newNotepad addNewNote s :
  palette_ok s → palette_ok (state_after (newNotepad clock addNewNote) s).
Proof.
  intros (Hnd & He & _). destruct defaults_palette as [Hdn Hde].
  unfold newNotepad, Date_now. unfold_monad. simpl.
  destruct addNewNote.
  - match goal with |- context [newNote clock ?p ?s0] =>
      pose proof (palette_ok_newNote p s0) as H;
      pose proof (newNote_first_colour s0 eq_refl) as Hc;
      unfold state_after in H, Hc;
      destruct (newNote clock p s0) as [[[]|e] s1] end; simpl in *.
    + split; [done|]. split; [done|]. simpl.
      eapply Forall_impl; [done|]. by intros n ->.
    + apply H. split; [done|]. split; [done|]. by apply Forall_nil.
  - split; [done|]. split; [done|]. by apply Forall_nil.
Qed.

Lemma palette_ok_fillNotepad notepad clear s :
  palette_ok s → palette_ok (state_after (fillNotepad clock notepad clear) s).
Proof.
  revert s. unfold fillNotepad.
  apply keeps_bind; [destruct clear; [apply palette_ok_newNotepad | done]|].
  intros _. do 4 (apply keeps_bind; [by intros s (? & ? & ?)|]; intros _).
  destruct (0 <? _)%nat; [|done].
  apply (for_each_invariant palette_ok). intros x s. apply palette_ok_newNote.
Qed.

Lemma palette_ok_constructor t :
  palette_ok (state_after (constructor clock) (blank_page t)).
Proof.
  assert (H0 : palette_ok (blank_page t)).
  { destruct defaults_palette. split; [done|]. split; [done|]. by apply Forall_nil. }
  revert H0. generalize (blank_page t). unfold constructor.
  apply keeps_bind; [by intros s (? & ? & ?)|]. intros now.
  apply keeps_bind; [by intros s (? & ? & ?)|]. intros _.
  apply keeps_bind; [by intros s (? & ? & ?)|]. intros currentTime.
  do 3 (apply keeps_bind; [by intros s (? & ? & ?)|]; intros _).
  apply palette_ok_newNote.
Qed.

Lemma palette_ok_edit e s : palette_ok s → palette_ok (apply_edit e s).
Proof.
  intros (Hnd & He & Hn). destruct e as [text|i text|i text]; repeat split; simpl; try done.
  all: apply Forall_alter; [done|]; by intros n _ ?.
Qed.

Lemma reachable_palette_ok s : reachable clock s → palette_ok s.
Proof.
  induction 1 as [t|c s _ IH|e s _ IH].
  - apply palette_ok_constructor.
  - destruct c; simpl.
    + by apply palette_ok_newNote.
    + by apply palette_ok_deleteNote.
    + by apply palette_ok_moveNote.
    + by apply palette_ok_changeNoteAccentColor.
    + by apply palette_ok_newNotepad.
    + by apply palette_ok_fillNotepad.
  - by apply palette_ok_edit.
Qed.

(** X21. On every page the notepad goes through (the constructor, then any
    calls of its methods and any edits, also calls that throw), every note
    has an id and an accent colour that is empty or a hexadecimal notation
    in lower case, and this colour is in the palette; the palette holds the
    empty colour and no colour twice. *)
Theorem reachable_colours (s : Notepad) :
  reachable clock s →
  palette_ok s
  ∧ Forall (λ n, note_id n ≠ "" ∧ plain_color (data_accent_color n)) (notesContainer s).
Proof.
  intros Hr. split; [by apply reachable_palette_ok|].
  destruct (reachable_well_formed clock s Hr) as [Hn _].
  eapply Forall_impl; [done|]. intros n [? ?]. split; [done|].
  by apply checked_color_plain.
Qed.


End PaletteFacts.

Module PaletteSamples.
Import Samples MoreSamples.

Lemma reachable_colours_witness :
  palette_ok abc_notepad
  ∧ Forall (λ n, note_id n ≠ "" ∧ plain_color (data_accent_color n))
      (notesContainer abc_notepad).
Proof.
  apply (reachable_colours sample_clock abc_notepad).
  apply RoundTripSample.abc_notepad_reachable.
Defined.


End PaletteSamples.

(** ** A new notepad, and a notepad that is loaded *)

Section FreshFacts.
Variable clock : nat → Z.
Implicit Types (s : Notepad).











End FreshFacts.

(** ** The open notepad and the stored notepads *)

Section AppFacts.
Variable clock : nat → Z.
Implicit Types (s : Notepad) (b : Browser).



End AppFacts.

Module AppSamples.
Import Samples MoreSamples.



End AppSamples.
